(** * check-up: a shallow embedding of [checkup.go]

    The development follows the source file top to bottom: the scenario
    record, the script executor [RunBash], the selection of scenario ids,
    the name lookup, the score computed by [signOff], the report lines, the
    runner [exec], the resolver [getConf] and the driver [main].  Go's [int]
    is a 64-bit two's complement integer, [float64] is IEEE 754 binary64
    (taken from the standard library's [SpecFloat]), a [map[string]string]
    is a possibly-nil finite map and a slice indexed by position is a list
    with positional lookup. *)

From Stdlib Require Import ZArith Lia Ascii.
From Stdlib Require Import Floats.SpecFloat.
From stdpp Require Import base option list strings pretty gmap.

Set Warnings "-clear-no-such-hyp".

(** ** Machine integers and floats *)

Module GoInt.
(** Go's [int] on the 64-bit targets the tool is built for. *)
Definition min_int : Z := - 2 ^ 63.
Definition max_int : Z := 2 ^ 63 - 1.

Definition in_range (z : Z) : Prop := (min_int ≤ z ≤ max_int)%Z.

(** Two's complement wrap-around of a mathematical integer. *)
Definition wrap (z : Z) : Z := ((z + 2 ^ 63) `mod` 2 ^ 64 - 2 ^ 63)%Z.

(** [a + b] and [a += b] on [int]. *)
Definition add (a b : Z) : Z := wrap (a + b).
End GoInt.

Module Float64.
Definition prec : Z := 53.
Definition emax : Z := 1024.

(** [float64(n)] for an [int] [n]: round to nearest, ties to even. *)
Definition of_int (n : Z) : spec_float := binary_normalize prec emax n 0 false.

Definition mul : spec_float → spec_float → spec_float := SFmul prec emax.
Definition div : spec_float → spec_float → spec_float := SFdiv prec emax.

(** A value that is not a number of the real line. *)
Definition undefined (f : spec_float) : bool :=
  match f with
  | S754_nan | S754_infinity _ => true
  | S754_zero _ | S754_finite _ _ _ => false
  end.
End Float64.

(** ** The scenario record (checkup.go, [ScenarioItem]) *)

(** A [map[string]string] field: [None] is the nil map. *)
Abbreviation env_map := (option (gmap string string)).

(** Reading a possibly-nil map. *)
Definition entries (e : env_map) : gmap string string := default ∅ e.

Record ScenarioItem := {
  (* YAML-defined data *)
  Name : string;
  Case : string;
  GlobalEnv : env_map;
  Env : env_map;
  Workdir : string;
  Description : string;
  Script : string;
  Skip : bool;
  Output : bool;
  SecretPhrase : string;
  Weight : Z;
  Log : string;
  Fatal : bool;
  Debug : string;
  Before : list string;
  After : list string;
  (* runtime data; [Result] is the [error]: [None] is nil *)
  Status : string;
  Result : option string;
  Stdout : string;
  Duration : string;
  canShow : bool;
  canRun : bool
}.

Definition IsSuccessful (s : ScenarioItem) : bool := bool_decide (Status s = "success").
Definition IsFailed (s : ScenarioItem) : bool := bool_decide (Status s = "failed").
Definition CanShow (s : ScenarioItem) : bool := canShow s.

(** Field updates, one per group of assignments of the source. *)

(** [s.Stdout = ...; s.Result = err; s.Status = ...] in [RunBash]. *)
Definition set_outcome (s : ScenarioItem) (out : string) (err : option string)
    (st : string) : ScenarioItem :=
  {| Name := Name s; Case := Case s; GlobalEnv := GlobalEnv s; Env := Env s;
     Workdir := Workdir s; Description := Description s; Script := Script s;
     Skip := Skip s; Output := Output s; SecretPhrase := SecretPhrase s;
     Weight := Weight s; Log := Log s; Fatal := Fatal s; Debug := Debug s;
     Before := Before s; After := After s;
     Status := st; Result := err; Stdout := out; Duration := Duration s;
     canShow := canShow s; canRun := canRun s |}.

(** [testCase.Duration = ...] in [exec]. *)
Definition set_Duration (d : string) (s : ScenarioItem) : ScenarioItem :=
  {| Name := Name s; Case := Case s; GlobalEnv := GlobalEnv s; Env := Env s;
     Workdir := Workdir s; Description := Description s; Script := Script s;
     Skip := Skip s; Output := Output s; SecretPhrase := SecretPhrase s;
     Weight := Weight s; Log := Log s; Fatal := Fatal s; Debug := Debug s;
     Before := Before s; After := After s;
     Status := Status s; Result := Result s; Stdout := Stdout s; Duration := d;
     canShow := canShow s; canRun := canRun s |}.

(** The fields [getConf] assigns. *)
Definition set_resolved (s : ScenarioItem) (env : env_map) (wd : string)
    (show run : bool) (w : Z) : ScenarioItem :=
  {| Name := Name s; Case := Case s; GlobalEnv := env; Env := Env s;
     Workdir := wd; Description := Description s; Script := Script s;
     Skip := Skip s; Output := Output s; SecretPhrase := SecretPhrase s;
     Weight := w; Log := Log s; Fatal := Fatal s; Debug := Debug s;
     Before := Before s; After := After s;
     Status := Status s; Result := Result s; Stdout := Stdout s;
     Duration := Duration s;
     canShow := show; canRun := run |}.

(** ** The suite record (checkup.go, [suitConfig]) *)

Record suitConfig := {
  suit_Name : string;        (* field [Name] of [suitConfig] *)
  Cases : list ScenarioItem;
  startTime : Z;             (* [time.Time], in nanoseconds *)
  endTime : Z;
  all : Z;
  successfull : Z;
  failed : Z;
  score : spec_float;
  duration_ : string         (* field [duration] of [suitConfig] *)
}.

Definition set_Cases (cs : list ScenarioItem) (c : suitConfig) : suitConfig :=
  {| suit_Name := suit_Name c; Cases := cs; startTime := startTime c;
     endTime := endTime c; all := all c; successfull := successfull c;
     failed := failed c; score := score c; duration_ := duration_ c |}.

Definition set_startTime (t : Z) (c : suitConfig) : suitConfig :=
  {| suit_Name := suit_Name c; Cases := Cases c; startTime := t;
     endTime := endTime c; all := all c; successfull := successfull c;
     failed := failed c; score := score c; duration_ := duration_ c |}.

(** ** Selection and lookup *)

(** The loop of [getScenarioIds], started at index [i]. *)
Fixpoint getScenarioIds_from (i : nat) (cs : list ScenarioItem) : list nat :=
  match cs with
  | [] => []
  | s :: rest =>
      if Skip s then getScenarioIds_from (S i) rest
      else if canShow s || canRun s then i :: getScenarioIds_from (S i) rest
      else getScenarioIds_from (S i) rest
  end.

Definition getScenarioIds (c : suitConfig) : list nat :=
  getScenarioIds_from 0 (Cases c).

(** [c.Cases[i]] for an id the code takes from [getScenarioIds]; those are
    in range, see [getScenarioIds_lookup]. *)
Definition getScenarioCount (c : suitConfig) : Z :=
  fold_left
    (λ result i,
       match Cases c !! i with
       | Some s => if CanShow s then GoInt.add result 1 else result
       | None => result
       end)
    (getScenarioIds c) 0%Z.

(** The loop of [getIdByName], started at index [id]. *)
Fixpoint getIdByName_from (id : nat) (cs : list ScenarioItem) (name : string) : Z :=
  match cs with
  | [] => (-1)%Z
  | item :: rest =>
      if decide (Name item = name) then Z.of_nat id
      else getIdByName_from (S id) rest name
  end.

Definition getIdByName (c : suitConfig) (name : string) : Z :=
  getIdByName_from 0 (Cases c) name.

(** ** The score (checkup.go, [signOff], the loop and the assignments) *)

(** The four local counters of [signOff]. *)
Record Tally := { t_sum : Z; t_max : Z; t_failed : Z; t_all : Z }.

(** One iteration of [for _, i := range c.getScenarioIds()]. *)
Definition tally_step (cs : list ScenarioItem) (acc : Tally) (i : nat) : Tally :=
  match cs !! i with
  | None => acc
  | Some item =>
      if CanShow item then
        {| t_all := GoInt.add (t_all acc) 1;
           t_max := GoInt.add (t_max acc) (Weight item);
           t_sum := if IsSuccessful item then GoInt.add (t_sum acc) (Weight item)
                    else t_sum acc;
           t_failed := if IsSuccessful item then t_failed acc
                       else GoInt.add (t_failed acc) 1 |}
      else acc
  end.

Definition tally (c : suitConfig) : Tally :=
  fold_left (tally_step (Cases c)) (getScenarioIds c)
    {| t_sum := 0; t_max := 0; t_failed := 0; t_all := 0 |}.

(** [100 * float64(sum) / float64(max)]. *)
Definition score_of (sum max : Z) : spec_float :=
  Float64.div (Float64.mul (Float64.of_int 100) (Float64.of_int sum))
              (Float64.of_int max).

(** [signOff] once the clock was read ([now]) and the elapsed time was
    rendered ([dur]). *)
Definition signOff_at (now : Z) (dur : string) (c : suitConfig) : suitConfig :=
  let t := tally c in
  {| suit_Name := suit_Name c; Cases := Cases c; startTime := startTime c;
     endTime := now;
     all := t_all t;
     successfull := GoInt.wrap (t_all t - t_failed t);
     failed := t_failed t;
     score := score_of (t_sum t) (t_max t);
     duration_ := dur |}.

(** ** Report lines

    What [print] and [log.Printf] receive, before formatting: one
    constructor per format string of the source. *)
Inductive LogLine :=
  | LHeaderMany (name : string) (n : Z)
  | LHeaderOne (name : string)
  | LHeaderNone (name : string)
  | LRule
  | LPassed (i : Z) (label dur phrase : string)
  | LNotPassed (i : Z) (label dur : string)
  | LRun (name : string)
  | LScript (text : string)
  | LStdout (text : string)
  | LExit (result : option string)
  | LDashes
  | LTildes
  | LSummary (red : bool) (passed total nfailed : Z) (rate : spec_float)
             (spent : string).

(** [printSummary]: the line printed, if any. *)
Definition printSummary (c : suitConfig) : option LogLine :=
  if (all c >? 0)%Z then
    if (failed c >? 0)%Z then
      Some (LSummary true (successfull c) (all c) (failed c) (score c) (duration_ c))
    else
      Some (LSummary false (successfull c) (all c) (failed c) (score c) (duration_ c))
  else None.

(** ** The process and its surroundings *)

(** The subprocess [exec.Command("/bin/bash", tmpFile.Name())] with its
    [Dir] and [Env]; [cmd_File] is the text written to the temporary file. *)
Record Cmd := {
  cmd_Path : string;
  cmd_File : string;
  cmd_Dir : string;
  cmd_Env : list string
}.

(** What the program asks of the operating system and of Go's libraries.
    [W] is the state of the outside world. *)
Class Runtime (W : Type) := {
  (** [os.Getwd()], the empty string on error *)
  os_Getwd : W → string;
  (** [os.Environ()] *)
  os_Environ : W → list string;
  (** [time.Now()], in nanoseconds *)
  time_Now : W → Z * W;
  (** [range] over a map visits every entry once, in an order of Go's choice *)
  map_range : gmap string string → W → list (string * string);
  map_range_perm : ∀ m w, map_range m w ≡ₚ map_to_list m;
  (** the temporary directory and file, [CombinedOutput] and the deferred
      [os.RemoveAll]: the combined output and the error, nil on exit status 0 *)
  CombinedOutput : Cmd → W → (string * option string) * W;
  (** the template [bash.BashScript] filled with [.Script] *)
  BashScript : string → string;
  (** [strings.TrimSpace] *)
  TrimSpace : string → string;
  (** [time.Duration.String] *)
  Duration_String : Z → string
}.

(** [finish.Sub(start).Truncate(time.Millisecond).String()] *)
Definition duration `{Runtime W} (start finish : Z) : string :=
  let d := (finish - start)%Z in
  Duration_String (d - Z.rem d 1000000)%Z.

(** [fmt.Sprintf("%s=%s", key, value)] *)
Definition env_entry (kv : string * string) : string :=
  (kv.1 +:+ "=" +:+ kv.2)%string.

(** Calls and launches, in the order they happen. *)
Inductive Event :=
  | EvExec (id : nat)             (* [c.exec(id)] entered *)
  | EvRunBash (id : nat)          (* [c.Cases[id].RunBash()] entered *)
  | EvSpawn (id : nat) (cmd : Cmd) (* the subprocess of scenario [id] *)
  | EvLog (l : LogLine).

(** A run-time panic: index out of range [idx]. *)
Inductive Res (A : Type) :=
  | Ok (a : A)
  | Panic (idx : Z).
Arguments Ok {A} a.
Arguments Panic {A} idx.

(** ** The engine *)

Section Engine.
Context {W : Type} `{!Runtime W}.

(** The package-level variables, assigned once from the command line
    before anything else runs. *)
Variable verbosity : Z.
Variable workdir : string.

Record State := { conf : suitConfig; world : W; trace : list Event }.

(** Computations on the suite and the world that may panic. *)
Definition M (A : Type) : Type := State → Res A * State.

#[global] Instance M_ret : MRet M := λ A a st, (Ok a, st).
#[global] Instance M_bind : MBind M := λ A B f m st,
  match m st with
  | (Ok a, st') => f a st'
  | (Panic i, st') => (Panic i, st')
  end.

Definition getConfig : M suitConfig := λ st, (Ok (conf st), st).

Definition modifyConfig (f : suitConfig → suitConfig) : M unit := λ st,
  (Ok (), {| conf := f (conf st); world := world st; trace := trace st |}).

Definition emit (e : Event) : M unit := λ st,
  (Ok (), {| conf := conf st; world := world st; trace := trace st ++ [e] |}).

Definition logLine (l : LogLine) : M unit := emit (EvLog l).

Definition timeNow : M Z := λ st,
  let '(t, w) := time_Now (world st) in
  (Ok t, {| conf := conf st; world := w; trace := trace st |}).

Definition readWorld {A} (f : W → A) : M A := λ st, (Ok (f (world st)), st).

(** [script.CombinedOutput()] for the subprocess of scenario [id]. *)
Definition combinedOutput (id : nat) (cmd : Cmd) : M (string * option string) := λ st,
  let '(r, w) := CombinedOutput cmd (world st) in
  (Ok r, {| conf := conf st; world := w; trace := trace st ++ [EvSpawn id cmd] |}).

(** [c.Cases[i]] for an [int] [i]: the position, or the panic of an index
    out of range. *)
Definition slot (i : Z) : M nat := λ st,
  if decide (0 ≤ i < Z.of_nat (length (Cases (conf st))))%Z
  then (Ok (Z.to_nat i), st)
  else (Panic i, st).

(** Reading [c.Cases[id]]. *)
Definition caseAt (id : nat) : M ScenarioItem := λ st,
  match Cases (conf st) !! id with
  | Some s => (Ok s, st)
  | None => (Panic (Z.of_nat id), st)
  end.

(** Writing through a pointer to [c.Cases[id]]. *)
Definition setCase (id : nat) (s : ScenarioItem) : M unit :=
  modifyConfig (λ c, set_Cases (<[id := s]> (Cases c)) c).

Fixpoint forM_ {A} (l : list A) (f : A → M unit) : M unit :=
  match l with
  | [] => mret ()
  | x :: rest => f x ;; forM_ rest f
  end.

(** *** [RunBash], on the scenario at position [id] *)

(** [script.Env]: [os.Environ()] followed by one entry per variable of
    [s.GlobalEnv]. *)
Definition script_Env (s : ScenarioItem) (w : W) : list string :=
  os_Environ w ++ (env_entry <$> map_range (entries (GlobalEnv s)) w).

(** [script], once [Dir] and [Env] are assigned. *)
Definition script_Cmd (s : ScenarioItem) (w : W) : Cmd :=
  {| cmd_Path := "/bin/bash";
     cmd_File := BashScript (Script s);
     cmd_Dir := workdir;
     cmd_Env := script_Env s w |}.

Definition RunBash (id : nat) : M (string * option string) :=
  s ← caseAt id;
  emit (EvRunBash id);;
  if decide (Script s ≠ "") then
    script ← readWorld (script_Cmd s);
    '(stdout, err) ← combinedOutput id script;
    setCase id (set_outcome s (TrimSpace stdout) err
                  (match err with None => "success" | Some _ => "failed" end));;
    mret (stdout, err)
  else mret (""%string, None).

(** *** [exec] *)

(** [c.Cases[c.getIdByName(name)].RunBash()] *)
Definition runHook (name : string) : M unit :=
  c ← getConfig;
  id ← slot (getIdByName c name);
  RunBash id ;;
  mret ().

Definition exec (item : nat) : M unit :=
  emit (EvExec item);;
  testCase ← caseAt item;
  if decide (Script testCase ≠ "") then
    taskStartTime ← timeNow;
    forM_ (Before testCase) runHook;;
    RunBash item;;
    forM_ (After testCase) runHook;;
    finish ← timeNow;
    current ← caseAt item;
    setCase item (set_Duration (duration taskStartTime finish) current)
  else mret ().

(** *** [getConf], after [yaml.Unmarshal] filled the suite *)

(** The loop of [getConf] with its two running values; [cwd] is what
    [os.Getwd()] returns. *)
Fixpoint getConf_loop (cwd : string) (envs : env_map) (wdir : string)
    (cs : list ScenarioItem) : list ScenarioItem :=
  match cs with
  | [] => []
  | s :: rest =>
      let '(envs', genv) :=
        match GlobalEnv s with
        | Some e => (Some e, Some e)
        | None => (envs, envs)
        end in
      let '(wdir', wd) :=
        if decide (Workdir s ≠ "") then (Workdir s, Workdir s)
        else (if decide (wdir = "") then cwd else wdir, wdir) in
      let show := if decide (Case s ≠ "") then true else canShow s in
      let run := if decide (Case s ≠ "") then true else canRun s in
      let run' := if decide (Name s = "") then true else run in
      let weight :=
        if show then (if decide (Weight s = 0%Z) then 1%Z else Weight s)
        else Weight s in
      set_resolved s genv wd show run' weight
        :: getConf_loop cwd envs' wdir' rest
  end.

(** The working directory the chain starts from. *)
Definition initial_wdir (w : W) : string :=
  if decide (workdir ≠ "") then workdir else os_Getwd w.

Definition getConf (w : W) (t : suitConfig) : suitConfig :=
  set_Cases (getConf_loop (os_Getwd w) None (initial_wdir w) (Cases t)) t.

(** *** Reporting *)

Definition printHeader : M unit :=
  c ← getConfig;
  let scenariosCount := getScenarioCount c in
  now ← timeNow;
  modifyConfig (set_startTime now);;
  if (scenariosCount >? 1)%Z then logLine (LHeaderMany (suit_Name c) scenariosCount)
  else if (scenariosCount =? 1)%Z then logLine (LHeaderOne (suit_Name c))
  else if (scenariosCount =? 0)%Z then logLine (LHeaderNone (suit_Name c))
  else mret ().

Definition signOff : M unit :=
  now ← timeNow;
  modifyConfig (λ c, signOff_at now (duration (startTime c) now) c).

Definition printSummaryM : M unit :=
  c ← getConfig;
  match printSummary c with
  | Some l => logLine l
  | None => mret ()
  end.

(** The block printed for one before/after name in [printTestStatus]. *)
Definition printHook (name : string) : M unit :=
  logLine (LRun name);;
  c ← getConfig;
  id ← slot (getIdByName c name);
  helper ← caseAt id;
  logLine (LScript (TrimSpace (Script helper)));;
  logLine (LStdout (Stdout helper));;
  logLine (LExit (Result helper));;
  logLine LDashes.

Definition printTestStatus (id : nat) (asId : list Z) : M unit :=
  testCase ← caseAt id;
  let i := match asId with a :: _ => a | [] => Z.of_nat id end in
  c ← getConfig;
  if decide (id ∈ getScenarioIds c) then
    if CanShow testCase then
      (if IsSuccessful testCase
       then logLine (LPassed i (Case testCase) (Duration testCase) (SecretPhrase testCase))
       else logLine (LNotPassed i (Case testCase) (Duration testCase)));;
      if ((verbosity >? 1)%Z && IsFailed testCase) || (verbosity >? 2)%Z then
        forM_ (Before testCase) printHook;;
        logLine LTildes;;
        logLine (LStdout (TrimSpace (Stdout testCase)));;
        logLine (LExit (Result testCase));;
        logLine LTildes;;
        forM_ (After testCase) printHook
      else mret ()
    else mret ()
  else mret ().

(** *** [main], from [c.getConf(yamlConfig)] on *)

(** The loop over [c.getScenarioIds()] with its counter [i]. *)
Fixpoint main_loop (ids : list nat) (i : Z) : M unit :=
  match ids with
  | [] => mret ()
  | id :: rest =>
      exec id;;
      shown ← caseAt id;
      if CanShow shown then
        printTestStatus id [i];;
        main_loop rest (GoInt.add i 1)
      else main_loop rest i
  end.

Definition main : M unit :=
  w ← readWorld id;
  modifyConfig (getConf w);;
  printHeader;;
  c ← getConfig;
  (if (getScenarioCount c >? 0)%Z then
     logLine LRule;;
     main_loop (getScenarioIds c) 1;;
     logLine LRule
   else mret ());;
  signOff;;
  printSummaryM.

(** The run of the program on the suite [t] that [yaml.Unmarshal]
    produced, in the world [w]. *)
Definition run (t : suitConfig) (w : W) : Res unit * State :=
  main {| conf := t; world := w; trace := [] |}.

End Engine.

Arguments State W : clear implicits.
Arguments M W A : clear implicits.

(** * The vocabulary of the properties *)

(** ** Selection and scoring *)

(** What [getScenarioIds] keeps. *)
Definition eligible (s : ScenarioItem) : bool :=
  negb (Skip s) && (canShow s || canRun s).

(** What [signOff] counts: displayable and not skipped. *)
Definition scored (s : ScenarioItem) : bool :=
  negb (Skip s) && canShow s.

Definition sumZ (l : list Z) : Z := foldr Z.add 0%Z l.

Definition weights (l : list ScenarioItem) : Z := sumZ (Weight <$> l).

(** Strictly ascending lists of positions. *)
Definition ascending (l : list nat) : Prop :=
  ∀ a b x y, a < b → l !! a = Some x → l !! b = Some y → x < y.

(** The body of the loop for a displayable item. *)
Definition tally_item (acc : Tally) (item : ScenarioItem) : Tally :=
  {| t_all := GoInt.add (t_all acc) 1;
     t_max := GoInt.add (t_max acc) (Weight item);
     t_sum := if IsSuccessful item then GoInt.add (t_sum acc) (Weight item)
              else t_sum acc;
     t_failed := if IsSuccessful item then t_failed acc
                 else GoInt.add (t_failed acc) 1 |}.

Definition successful (l : list ScenarioItem) : list ScenarioItem :=
  filter (λ s, IsSuccessful s) l.

Definition unsuccessful (l : list ScenarioItem) : list ScenarioItem :=
  filter (λ s, negb (IsSuccessful s)) l.

(** The scenarios [signOff] scores: displayable and not skipped, in
    declaration order. *)
Definition scoredCases (c : suitConfig) : list ScenarioItem :=
  filter (λ s, scored s) (Cases c).

(** The ids [main] hands to [exec]: those of [getScenarioIds] when
    [getScenarioCount] is positive, none otherwise. *)
Definition executed (c : suitConfig) : list nat :=
  if (getScenarioCount c >? 0)%Z then getScenarioIds c else [].

(** ** The resolver *)

(** The flags and the weight [getConf] gives a scenario. *)
Definition resolved_show (s : ScenarioItem) : bool :=
  if decide (Case s ≠ ""%string) then true else canShow s.

Definition resolved_run (s : ScenarioItem) : bool :=
  if decide (Name s = ""%string) then true
  else if decide (Case s ≠ ""%string) then true else canRun s.

Definition resolved_weight (s : ScenarioItem) : Z :=
  if resolved_show s then (if decide (Weight s = 0%Z) then 1%Z else Weight s)
  else Weight s.

(** ** Traces and frames *)

(** What a trace says about calls. *)
Definition calls (t : list Event) : list nat :=
  omap (λ e, match e with EvRunBash i => Some i | _ => None end) t.

Definition spawns (t : list Event) : list nat :=
  omap (λ e, match e with EvSpawn i _ => Some i | _ => None end) t.

Definition execs (t : list Event) : list nat :=
  omap (λ e, match e with EvExec i => Some i | _ => None end) t.

Definition succeeded {A} (r : Res A) : Prop :=
  match r with
  | Ok _ => True
  | Panic _ => False
  end.

(** A scenario without its runtime data. *)
Definition static (s : ScenarioItem) : ScenarioItem :=
  set_Duration "" (set_outcome s "" None "").

(** [cs'] is [cs] after some scripts ran: the configuration of every
    scenario is the same, and a scenario without a script is the same
    altogether. *)
Definition keeps (cs cs' : list ScenarioItem) : Prop :=
  static <$> cs = static <$> cs' ∧
  ∀ j s, cs !! j = Some s → Script s = ""%string → cs' !! j = Some s.

(** Whether the scenario at position [j] has a script. *)
Definition has_script (cs : list ScenarioItem) (j : nat) : bool :=
  match cs !! j with
  | Some s => bool_decide (Script s ≠ ""%string)
  | None => false
  end.

(** The positions the names of [names] resolve to. *)
Definition resolve (c : suitConfig) (names : list string) : list nat :=
  (λ name, Z.to_nat (getIdByName c name)) <$> names.

(** ** The environment list of a subprocess *)

(** How a list of [key=value] entries is read (package os/exec): the key
    of an entry is the text before its first [=], and of several entries
    with one key the last one counts. *)
Fixpoint entry_split (e : string) : option (string * string) :=
  match e with
  | EmptyString => None
  | String c rest =>
      if decide (c = "="%char) then Some (EmptyString, rest)
      else match entry_split rest with
           | Some (k, v) => Some (String c k, v)
           | None => None
           end
  end.

Fixpoint lookupEnv (k : string) (env : list string) : option string :=
  match env with
  | [] => None
  | e :: rest =>
      match lookupEnv k rest with
      | Some v => Some v
      | None =>
          match entry_split e with
          | Some (k', v) => if decide (k' = k) then Some v else None
          | None => None
          end
      end
  end.

(** A variable name: no [=] in it. *)
Fixpoint no_equals (k : string) : bool :=
  match k with
  | EmptyString => true
  | String c rest => if decide (c = "="%char) then false else no_equals rest
  end.

(** ** States and computations *)

Section Vocabulary.
Context {W : Type} `{!Runtime W}.
Variable verbosity : Z.
Variable workdir : string.

(** [st] with more events. *)
Definition record (st : State W) (new : list Event) : State W :=
  {| conf := conf st; world := world st; trace := trace st ++ new |}.

(** The state after the script of [s], the scenario at [id], ran with
    outcome [r]. *)
Definition ran (st : State W) (id : nat) (s : ScenarioItem)
    (r : (string * option string) * W) : State W :=
  {| conf := set_Cases
               (<[id := set_outcome s (TrimSpace r.1.1) r.1.2
                          (match r.1.2 with
                           | None => "success"
                           | Some _ => "failed"
                           end)%string]> (Cases (conf st)))
               (conf st);
     world := r.2;
     trace := trace st ++ [EvRunBash id; EvSpawn id (script_Cmd workdir s (world st))] |}.

(** What a sequence of executor calls did: the configuration is kept, the
    new events are the calls [cl] and the launches [sp], and no [exec] was
    entered. *)
Definition did (st st' : State W) (cl sp : list nat) : Prop :=
  keeps (Cases (conf st)) (Cases (conf st')) ∧
  ∃ new, trace st' = trace st ++ new ∧
         calls new = cl ∧ spawns new = sp ∧ execs new = [].

(** [m] keeps the configuration [c0] it started from. *)
Definition frame (c0 : list ScenarioItem) {A} (m : M W A) : Prop :=
  ∀ st, keeps c0 (Cases (conf st)) → keeps c0 (Cases (conf (m st).2)).

(** [m] only adds events other than [EvExec] to the trace. *)
Definition quiet {A} (m : M W A) : Prop :=
  ∀ st, ∃ new, trace (m st).2 = trace st ++ new ∧ execs new = [].

(** [m] leaves the scenarios alone. *)
Definition reads {A} (m : M W A) : Prop :=
  ∀ st, Cases (conf (m st).2) = Cases (conf st).

(** The state [main] is in once [getConf] returned. *)
Definition resolved (t : suitConfig) (w : W) : State W :=
  {| conf := getConf workdir w t; world := w; trace := [] |}.

(** [main] after [c.getConf(yamlConfig)]. *)
Definition after_getConf : M W () :=
  printHeader;;
  c ← getConfig;
  (if (getScenarioCount c >? 0)%Z then
     logLine LRule;;
     main_loop verbosity workdir (getScenarioIds c) 1;;
     logLine LRule
   else mret ());;
  signOff;;
  printSummaryM.

(** [m] enters [exec] for the ids of a prefix of [ids], in that order, and
    for all of them when it does not panic. *)
Definition tracks {A} (m : M W A) (ids : list nat) : Prop :=
  ∀ st, ∃ new,
    trace (m st).2 = trace st ++ new ∧
    execs new `prefix_of` ids ∧
    (succeeded (m st).1 → execs new = ids).

End Vocabulary.

(** ** A small world to run the model in

    One directory, two process variables, a clock that ticks once per
    reading, and a shell in which a script succeeds exactly when its text is
    [exit 0]. *)
Module Toy.
Definition shell (cmd : Cmd) : string * option string :=
  if decide (cmd_File cmd = "exit 0") then (""%string, None)
  else ("boom"%string, Some "exit status 1"%string).

#[global] Instance toy_runtime : Runtime nat := {|
  os_Getwd := λ _, "/home/ci"%string;
  os_Environ := λ _, ["PATH=/bin"; "LANG=C"]%string;
  time_Now := λ w, (Z.of_nat w * 1000000, S w)%Z;
  map_range := λ m _, map_to_list m;
  map_range_perm := λ m _, reflexivity (map_to_list m);
  CombinedOutput := λ cmd w, (shell cmd, w);
  BashScript := λ text, text;
  TrimSpace := λ text, text;
  Duration_String := λ d, (pretty (d / 1000000)%Z +:+ "ms")%string
|}.

(** A scenario as [yaml.Unmarshal] leaves it when only these keys are
    given. *)
Definition scenario (name label script : string) (weight : Z)
    (before after : list string) : ScenarioItem :=
  {| Name := name; Case := label; GlobalEnv := None; Env := None;
     Workdir := ""; Description := ""; Script := script; Skip := false;
     Output := false; SecretPhrase := ""; Weight := weight; Log := "";
     Fatal := false; Debug := ""; Before := before; After := after;
     Status := ""; Result := None; Stdout := ""; Duration := "";
     canShow := false; canRun := false |}.

(** A named scenario without a label, as used for before and after. *)
Definition helper (name script : string) (skip : bool) : ScenarioItem :=
  {| Name := name; Case := ""; GlobalEnv := None; Env := None;
     Workdir := ""; Description := ""; Script := script; Skip := skip;
     Output := false; SecretPhrase := ""; Weight := 0; Log := "";
     Fatal := false; Debug := ""; Before := []; After := [];
     Status := ""; Result := None; Stdout := ""; Duration := "";
     canShow := false; canRun := false |}.

(** The same scenario with the keys [global_env] and [workdir] given. *)
Definition placed (env : env_map) (wd : string) (s : ScenarioItem) : ScenarioItem :=
  set_resolved s env wd (canShow s) (canRun s) (Weight s).

Definition suite (cs : list ScenarioItem) : suitConfig :=
  {| suit_Name := "suite"; Cases := cs; startTime := 0; endTime := 0;
     all := 0; successfull := 0; failed := 0; score := S754_zero false;
     duration_ := "" |}.
End Toy.

(** ** The suites the examples run *)

(** Two displayable scenarios whose weights cancel, both failing. *)
Definition cancelling_suite : suitConfig :=
  Toy.suite [Toy.scenario "" "gain" "exit 1" 1 [] [];
             Toy.scenario "" "loss" "exit 1" (-1) [] []].

(** A skipped helper with a script, a helper without a script, and a
    displayable scenario that names them. *)
Definition hooked_suite : suitConfig :=
  Toy.suite [Toy.helper "setup" "exit 0" true;
             Toy.helper "cleanup" "" false;
             Toy.scenario "" "main" "exit 0" 1 ["setup"] ["cleanup"]]%string.

Definition hooked_state : State nat :=
  {| conf := getConf "" 0%nat hooked_suite; world := 0%nat; trace := [] |}.

(** Three scenarios: the first declares an environment and a directory, the
    second inherits both, the third declares its own. *)
Definition inheriting_suite : suitConfig :=
  Toy.suite
    [Toy.placed (Some {[ "STAGE"%string := "one"%string ]}) "/srv/a"
       (Toy.scenario "" "a" "exit 0" 1 [] []);
     Toy.scenario "" "b" "exit 0" 1 [] [];
     Toy.placed (Some {[ "STAGE"%string := "two"%string ]}) "/srv/c"
       (Toy.scenario "" "c" "exit 0" 1 [] [])].

(** A displayable scenario whose before list names a scenario that does not
    exist. *)
Definition dangling_suite : suitConfig :=
  Toy.suite [Toy.scenario "" "deploy" "exit 0" 1 ["prepare"%string] []].

(** A suite whose only scenario has neither a name nor a label. *)
Definition anonymous_suite : suitConfig :=
  Toy.suite [Toy.scenario "" "" "exit 0" 0 [] []].

(** A scenario that overrides [LANG] and adds [STAGE]. *)
Definition env_suite : suitConfig :=
  Toy.suite
    [Toy.placed
       (Some {[ "LANG"%string := "en"%string; "STAGE"%string := "one"%string ]}) ""
       (Toy.scenario "" "env" "exit 0" 1 [] [])].

(** A scenario that declares its own working directory. *)
Definition located_suite : suitConfig :=
  Toy.suite
    [Toy.placed None "/srv/app" (Toy.scenario "" "build" "exit 0" 1 [] [])].

(** A displayable scenario without a script that names a missing helper. *)
Definition dangling_scriptless_suite : suitConfig :=
  Toy.suite [Toy.scenario "" "notes" "" 1 ["prepare"%string] []].

(** A scenario whose second before name is missing. *)
Definition half_dangling_suite : suitConfig :=
  Toy.suite [Toy.helper "setup" "exit 0" false;
             Toy.scenario "" "deploy" "exit 0" 1 ["setup"; "prepare"]%string []].

(** A skipped scenario that nobody names, beside a scenario with a helper. *)
Definition untouched_suite : suitConfig :=
  Toy.suite [Toy.helper "setup" "exit 0" false;
             Toy.helper "spare" "exit 0" true;
             Toy.scenario "" "main" "exit 0" 1 ["setup"%string] []].

(** * The rest of the program *)

(** ** The verbosity level ([main], the closure assigned to [verbosity]) *)

(** [-v], [-vv] and [-vvv] are tested in this order. *)
Definition verbosity_of (v1 v2 v3 : bool) : Z :=
  if v1 then 1%Z else if v2 then 2%Z else if v3 then 3%Z else 0%Z.

(** ** [print] *)

(** The byte [\033]. *)
Definition ESC : ascii := "027"%char.

(** Whether an [m] occurs in the text. *)
Fixpoint has_m (s : string) : bool :=
  match s with
  | EmptyString => false
  | String c rest => if decide (c = "m"%char) then true else has_m rest
  end.

(** [regexp.MustCompile(`\033[^m]*m`).ReplaceAllString(msg, "")]: a match
    starts at an [\033] that has an [m] somewhere after it and ends at the
    first such [m]; matches are taken from left to right and removed.
    [inside] says that the text read so far ends within a match. *)
Fixpoint stripEscapes_from (inside : bool) (s : string) : string :=
  match s with
  | EmptyString => EmptyString
  | String c rest =>
      if inside then
        if decide (c = "m"%char) then stripEscapes_from false rest
        else stripEscapes_from true rest
      else if decide (c = ESC) then
        if has_m rest then stripEscapes_from true rest else String c rest
      else String c (stripEscapes_from false rest)
  end.

Definition stripEscapes (msg : string) : string := stripEscapes_from false msg.

(** [ReplaceAllString] for the one-rune patterns of [print]: the three
    bytes [\226 \156 last] of the rune are replaced by [new], from left to
    right. *)
Fixpoint replaceGlyph (last : ascii) (new : string) (s : string) : string :=
  match s with
  | EmptyString => EmptyString
  | String a r1 =>
      match r1 with
      | String b (String c r3) =>
          if decide (a = "226"%char ∧ b = "156"%char ∧ c = last)
          then (new +:+ replaceGlyph last new r3)%string
          else String a (replaceGlyph last new r1)
      | _ => String a (replaceGlyph last new r1)
      end
  end.

(** The check mark and the cross of the status lines, in UTF-8. *)
Definition check_mark : string :=
  String "226"%char (String "156"%char (String "147"%char EmptyString)).
Definition cross_mark : string :=
  String "226"%char (String "156"%char (String "151"%char EmptyString)).

(** What [print] hands to [log.Println]; [term] is [os.Getenv("TERM")]. *)
Definition print_text (term msg : string) : string :=
  if decide (term = ""%string) then
    let mod1 := stripEscapes msg in
    let mod2 := replaceGlyph "147"%char "success" mod1 in
    replaceGlyph "151"%char "FAILURE" mod2
  else msg.

(** ** More vocabulary *)

(** No [\033] in the text. *)
Fixpoint no_esc (s : string) : bool :=
  match s with
  | EmptyString => true
  | String c rest => if decide (c = ESC) then false else no_esc rest
  end.

(** No byte [\226], the first byte of the two glyphs, in the text. *)
Fixpoint no_glyph_lead (s : string) : bool :=
  match s with
  | EmptyString => true
  | String c rest => if decide (c = "226"%char) then false else no_glyph_lead rest
  end.

(** No [\033] of the text has an [m] after it: nothing for [stripEscapes]
    to remove. *)
Fixpoint clean (s : string) : bool :=
  match s with
  | EmptyString => true
  | String c rest =>
      (if decide (c = ESC) then negb (has_m rest) else true) && clean rest
  end.

(** An escape sequence with the code [code]. *)
Definition escape (code : string) : string :=
  String ESC (code +:+ "m")%string.

(** The status and the error of a scenario agree: not run, or run with
    success and no error, or run with a failure and its error. *)
Definition outcome_ok (s : ScenarioItem) : Prop :=
  (Status s = ""%string ∧ Result s = None) ∨
  (Status s = "success"%string ∧ Result s = None) ∨
  (Status s = "failed"%string ∧ Result s ≠ None).

(** The scenario at position [j] has been run. *)
Definition finished (j : nat) (cs : list ScenarioItem) : Prop :=
  ∃ s, cs !! j = Some s ∧
       (Status s = "success"%string ∨ Status s = "failed"%string).

(** A property of the scenarios that the two assignments of the engine
    keep: the three of [RunBash] and the one of [exec]. *)
Definition stable (P : list ScenarioItem → Prop) : Prop :=
  (∀ cs id s out err, cs !! id = Some s → P cs →
     P (<[id := set_outcome s out err
                  (match err with None => "success" | Some _ => "failed" end)%string]> cs)) ∧
  (∀ cs id s d, cs !! id = Some s → P cs → P (<[id := set_Duration d s]> cs)).

(** No before or after name of the scripted scenario at position [id]
    of [cs] resolves to position [j]. *)
Definition hooks_miss (cs : list ScenarioItem) (id j : nat) : Prop :=
  ∀ s name, cs !! id = Some s → Script s ≠ ""%string →
    name ∈ Before s ++ After s →
    getIdByName_from 0 cs name ≠ Z.of_nat j.

(** [i], [i+1], ... as the counter [i] of [main] takes them, [n] of them. *)
Fixpoint count_from (i : Z) (n : nat) : list Z :=
  match n with
  | O => []
  | S n' => i :: count_from (GoInt.add i 1) n'
  end.

(** Whether the scenario at position [id] is displayable. *)
Definition shown_at (cs : list ScenarioItem) (id : nat) : bool :=
  match cs !! id with
  | Some s => canShow s
  | None => false
  end.


(** The status lines of a trace, with their numbers. *)
Definition status_numbers (t : list Event) : list Z :=
  omap (λ e, match e with
             | EvLog (LPassed i _ _ _) | EvLog (LNotPassed i _ _) => Some i
             | _ => None
             end) t.

Section Invariants.
Context {W : Type} `{!Runtime W}.
Variable workdir : string.

(** [exec] after its clock was read and its before names were run. *)
Definition exec_rest (item : nat) (after : list string) (start : Z) : M W () :=
  RunBash workdir item;;
  forM_ after (runHook workdir);;
  finish ← timeNow;
  current ← caseAt item;
  setCase item (set_Duration (duration start finish) current).

(** [exec] after its own script was run. *)
Definition exec_tail (item : nat) (after : list string) (start : Z) : M W () :=
  forM_ after (runHook workdir);;
  finish ← timeNow;
  current ← caseAt item;
  setCase item (set_Duration (duration start finish) current).


(** [m] keeps the property [P] of the scenarios, however it ends. *)
Definition holds (P : list ScenarioItem → Prop) {A} (m : M W A) : Prop :=
  ∀ st, P (Cases (conf st)) → P (Cases (conf (m st).2)).


(** Started from a state that [keeps] the suite [c0], [m] ends in such a
    state and leaves the scenario at position [j] as it is. *)
Definition avoids (c0 : list ScenarioItem) (j : nat) {A} (m : M W A) : Prop :=
  ∀ st, keeps c0 (Cases (conf st)) →
    keeps c0 (Cases (conf (m st).2)) ∧
    Cases (conf (m st).2) !! j = Cases (conf st) !! j.

(** The status lines [m] logs when it does not panic have the numbers
    [l], in this order. *)
Definition numbered {A} (m : M W A) (l : list Z) : Prop :=
  ∀ st, ∃ new,
    trace (m st).2 = trace st ++ new ∧
    (succeeded (m st).1 → status_numbers new = l).



End Invariants.

(** * Properties *)

(** ** Wrap-around *)

Lemma wrap_in_range z : GoInt.in_range z → GoInt.wrap z = z.
Proof.
  unfold GoInt.in_range, GoInt.min_int, GoInt.max_int, GoInt.wrap. intros Hz.
  rewrite Z.mod_small; lia.
Qed.

Lemma wrap_add_l a b : GoInt.wrap (GoInt.wrap a + b) = GoInt.wrap (a + b).
Proof.
  unfold GoInt.wrap. f_equal.
  replace ((a + 2 ^ 63) `mod` 2 ^ 64 - 2 ^ 63 + b + 2 ^ 63)%Z
    with ((a + 2 ^ 63) `mod` 2 ^ 64 + b)%Z by lia.
  rewrite Zplus_mod_idemp_l. f_equal. lia.
Qed.

Lemma wrap_zero : GoInt.wrap 0 = 0%Z.
Proof. reflexivity. Qed.

(** ** Which scenarios are selected and which are scored *)

Lemma getScenarioIds_from_lookup (pre cs : list ScenarioItem) :
  (λ i, (pre ++ cs) !! i) <$> getScenarioIds_from (length pre) cs
  = Some <$> filter (λ s, eligible s) cs.
Proof.
  revert pre. induction cs as [|s rest IH]; intros pre; [done|].
  assert (Hstep : ∀ i, (pre ++ s :: rest) !! i = ((pre ++ [s]) ++ rest) !! i)
    by (intros i; by rewrite <- app_assoc).
  assert (Hlen : S (length pre) = length (pre ++ [s]))
    by (rewrite length_app; simpl; lia).
  assert (Hrest : (λ i, (pre ++ s :: rest) !! i) <$> getScenarioIds_from (S (length pre)) rest
                  = Some <$> filter (λ s, eligible s) rest).
  { rewrite Hlen, <- (IH (pre ++ [s])). apply list_fmap_ext. intros _ i _. apply Hstep. }
  simpl. destruct (Skip s) eqn:Hskip; [|destruct (canShow s || canRun s) eqn:Hflags].
  - rewrite filter_cons_False; [exact Hrest|].
    unfold eligible. rewrite Hskip. simpl. tauto.
  - rewrite filter_cons_True by (unfold eligible; rewrite Hskip, Hflags; exact I).
    rewrite !fmap_cons, Hrest. f_equal.
    rewrite lookup_app_r by lia. by rewrite Nat.sub_diag.
  - rewrite filter_cons_False; [exact Hrest|].
    unfold eligible. rewrite Hskip, Hflags. simpl. tauto.
Qed.

Lemma getScenarioIds_lookup (c : suitConfig) :
  (λ i, Cases c !! i) <$> getScenarioIds c = Some <$> filter (λ s, eligible s) (Cases c).
Proof. exact (getScenarioIds_from_lookup [] (Cases c)). Qed.

(** The ids are the positions of the eligible scenarios, in ascending
    order. *)
Lemma getScenarioIds_from_elem (i k : nat) (cs : list ScenarioItem) :
  k ∈ getScenarioIds_from i cs ↔
  ∃ s, i ≤ k ∧ cs !! (k - i) = Some s ∧ eligible s = true.
Proof.
  revert i. induction cs as [|s rest IH]; intros i; simpl.
  - split; [by intros ?%elem_of_nil | by intros (? & _ & ? & _)].
  - assert (Hsplit :
      (∃ s', i ≤ k ∧ (s :: rest) !! (k - i) = Some s' ∧ eligible s' = true) ↔
      (k = i ∧ eligible s = true) ∨ k ∈ getScenarioIds_from (S i) rest).
    { rewrite (IH (S i)). split.
      - intros (s' & Hle & Hl & He). destruct (decide (k = i)) as [->|Hne].
        + left. rewrite Nat.sub_diag in Hl. simpl in Hl. by simplify_eq.
        + right. exists s'.
          replace (k - i) with (S (k - S i)) in Hl by lia. simpl in Hl.
          split_and!; [lia|done|done].
      - intros [[-> He]|(s' & Hle & Hl & He)].
        + exists s. by rewrite Nat.sub_diag.
        + exists s'. replace (k - i) with (S (k - S i)) by lia.
          split_and!; [lia|done|done]. }
    rewrite Hsplit. unfold eligible.
    destruct (Skip s), (canShow s || canRun s); simpl;
      rewrite ?elem_of_cons; naive_solver.
Qed.

Lemma getScenarioIds_elem (c : suitConfig) (k : nat) :
  k ∈ getScenarioIds c ↔ ∃ s, Cases c !! k = Some s ∧ eligible s = true.
Proof.
  unfold getScenarioIds. rewrite getScenarioIds_from_elem.
  rewrite Nat.sub_0_r. naive_solver lia.
Qed.

Lemma getScenarioIds_from_ge (i k : nat) (cs : list ScenarioItem) :
  k ∈ getScenarioIds_from i cs → i ≤ k.
Proof. rewrite getScenarioIds_from_elem. naive_solver. Qed.

Lemma ascending_cons (x : nat) (l : list nat) :
  (∀ y, y ∈ l → x < y) → ascending l → ascending (x :: l).
Proof.
  intros Hx Hl a b u v Hab Ha Hb.
  destruct b as [|b]; [lia|]. simpl in Hb.
  destruct a as [|a]; simpl in Ha.
  - simplify_eq. apply Hx. by eapply list_elem_of_lookup_2.
  - eapply (Hl a b); [lia|done|done].
Qed.

Lemma getScenarioIds_from_ascending (i : nat) (cs : list ScenarioItem) :
  ascending (getScenarioIds_from i cs).
Proof.
  revert i. induction cs as [|s rest IH]; intros i; simpl.
  - intros a b x y _ Ha. by rewrite lookup_nil in Ha.
  - destruct (Skip s); [apply IH|].
    destruct (canShow s || canRun s); [|apply IH].
    apply ascending_cons; [|apply IH].
    intros y Hy%getScenarioIds_from_ge. lia.
Qed.

(** ** The counters of [signOff] in closed form *)

Lemma tally_from (pre cs : list ScenarioItem) (acc : Tally) :
  fold_left (tally_step (pre ++ cs)) (getScenarioIds_from (length pre) cs) acc
  = fold_left tally_item (filter (λ s, scored s) cs) acc.
Proof.
  revert pre acc. induction cs as [|s rest IH]; intros pre acc; [done|].
  assert (Hhere : (pre ++ s :: rest) !! length pre = Some s).
  { rewrite lookup_app_r by lia. by rewrite Nat.sub_diag. }
  assert (Hrest : ∀ a,
    fold_left (tally_step (pre ++ s :: rest)) (getScenarioIds_from (S (length pre)) rest) a
    = fold_left tally_item (filter (λ s, scored s) rest) a).
  { intros a. rewrite <- (IH (pre ++ [s]) a), <- app_assoc.
    rewrite length_app. simpl. by rewrite Nat.add_1_r. }
  simpl. destruct (Skip s) eqn:Hskip.
  { rewrite filter_cons_False; [apply Hrest|].
    unfold scored. rewrite Hskip. simpl. tauto. }
  destruct (canShow s) eqn:Hshow; simpl.
  - rewrite filter_cons_True by (unfold scored; rewrite Hskip, Hshow; exact I).
    simpl. rewrite Hrest. f_equal.
    unfold tally_step. rewrite Hhere. unfold CanShow. by rewrite Hshow.
  - rewrite filter_cons_False
      by (unfold scored; rewrite Hskip, Hshow; simpl; tauto).
    destruct (canRun s); [|apply Hrest].
    simpl. rewrite Hrest. f_equal.
    unfold tally_step. rewrite Hhere. unfold CanShow. by rewrite Hshow.
Qed.

Lemma tally_scored (c : suitConfig) :
  tally c = fold_left tally_item (filter (λ s, scored s) (Cases c))
              {| t_sum := 0; t_max := 0; t_failed := 0; t_all := 0 |}.
Proof. exact (tally_from [] (Cases c) _). Qed.

Lemma fold_tally_item (l : list ScenarioItem) (acc : Tally) (s m f a : Z) :
  t_sum acc = GoInt.wrap s → t_max acc = GoInt.wrap m →
  t_failed acc = GoInt.wrap f → t_all acc = GoInt.wrap a →
  let r := fold_left tally_item l acc in
  t_sum r = GoInt.wrap (s + weights (successful l)) ∧
  t_max r = GoInt.wrap (m + weights l) ∧
  t_failed r = GoInt.wrap (f + Z.of_nat (length (unsuccessful l))) ∧
  t_all r = GoInt.wrap (a + Z.of_nat (length l)).
Proof.
  revert acc s m f a. induction l as [|x l IH]; intros acc s m f a Hs Hm Hf Ha.
  - simpl. unfold weights, successful, unsuccessful. simpl.
    rewrite !Z.add_0_r. done.
  - simpl. unfold successful, unsuccessful, weights.
    destruct (IsSuccessful x) eqn:Hx.
    + rewrite filter_cons_True by (rewrite Hx; exact I).
      rewrite (filter_cons_False (λ s, negb (IsSuccessful s)))
        by (rewrite Hx; simpl; tauto).
      specialize (IH (tally_item acc x) (s + Weight x)%Z (m + Weight x)%Z f (a + 1)%Z).
      simpl in IH. rewrite Hx in IH.
      destruct IH as (IHs & IHm & IHf & IHa).
      * unfold GoInt.add. by rewrite Hs, wrap_add_l.
      * unfold GoInt.add. by rewrite Hm, wrap_add_l.
      * done.
      * unfold GoInt.add. by rewrite Ha, wrap_add_l.
      * rewrite IHs, IHm, IHf, IHa. unfold successful, unsuccessful, weights.
        rewrite !fmap_cons. simpl.
        split_and!; f_equal; lia.
    + rewrite filter_cons_False by (rewrite Hx; simpl; tauto).
      rewrite (filter_cons_True (λ s, negb (IsSuccessful s)))
        by (rewrite Hx; exact I).
      specialize (IH (tally_item acc x) s (m + Weight x)%Z (f + 1)%Z (a + 1)%Z).
      simpl in IH. rewrite Hx in IH.
      destruct IH as (IHs & IHm & IHf & IHa).
      * done.
      * unfold GoInt.add. by rewrite Hm, wrap_add_l.
      * unfold GoInt.add. by rewrite Hf, wrap_add_l.
      * unfold GoInt.add. by rewrite Ha, wrap_add_l.
      * rewrite IHs, IHm, IHf, IHa. unfold successful, unsuccessful, weights.
        rewrite !fmap_cons. simpl.
        split_and!; f_equal; lia.
Qed.

Lemma tally_closed (c : suitConfig) :
  t_sum (tally c) = GoInt.wrap (weights (successful (scoredCases c))) ∧
  t_max (tally c) = GoInt.wrap (weights (scoredCases c)) ∧
  t_failed (tally c) = GoInt.wrap (Z.of_nat (length (unsuccessful (scoredCases c)))) ∧
  t_all (tally c) = GoInt.wrap (Z.of_nat (length (scoredCases c))).
Proof.
  rewrite tally_scored.
  exact (fold_tally_item (scoredCases c)
           {| t_sum := 0; t_max := 0; t_failed := 0; t_all := 0 |}
           0 0 0 0 eq_refl eq_refl eq_refl eq_refl).
Qed.

(** ** The summary *)

Section Summary.
Context {W : Type} `{!Runtime W}.

Lemma signOff_conf (st : State W) :
  (signOff st).1 = Ok () ∧
  trace (signOff st).2 = trace st ∧
  ∃ now dur, conf (signOff st).2 = signOff_at now dur (conf st).
Proof.
  unfold signOff, mbind, M_bind, timeNow, modifyConfig.
  destruct (time_Now (world st)) as [now w] eqn:Hnow. simpl.
  split_and!; [done|done|]. by eexists _, _.
Qed.

(** C1. After [signOff], with [sel] the displayable, non-skipped scenarios
    of the suite: the score is [100 * float64(sum) / float64(max)] where
    [max] is the sum of the weights of [sel] and [sum] the sum of the weights
    of the successful ones (both as Go [int]s), the total is the number of
    scenarios in [sel], the failed count the number of those that are not
    successful, and the successful count is the total minus the failed
    count. *)
Theorem signOff_summary (st : State W) :
  let c := conf st in
  let c' := conf (signOff st).2 in
  let sel := scoredCases c in
  t_max (tally c) = GoInt.wrap (weights sel) ∧
  t_sum (tally c) = GoInt.wrap (weights (successful sel)) ∧
  score c' = score_of (t_sum (tally c)) (t_max (tally c)) ∧
  score_of (t_sum (tally c)) (t_max (tally c))
    = Float64.div
        (Float64.mul (Float64.of_int 100)
           (Float64.of_int (GoInt.wrap (weights (successful sel)))))
        (Float64.of_int (GoInt.wrap (weights sel))) ∧
  all c' = GoInt.wrap (Z.of_nat (length sel)) ∧
  failed c' = GoInt.wrap (Z.of_nat (length (unsuccessful sel))) ∧
  successfull c' = GoInt.wrap (all c' - failed c').
Proof.
  intros c c' sel.
  destruct (tally_closed c) as (Hsum & Hmax & Hfailed & Hall).
  destruct (signOff_conf st) as (_ & _ & now & dur & Hc').
  subst c'. rewrite Hc'. simpl. fold c.
  split_and!; try done.
  unfold score_of. by rewrite Hsum, Hmax.
Qed.

(** A scored scenario is counted on exactly one side. *)
Lemma successful_unsuccessful_length (l : list ScenarioItem) :
  length l = length (successful l) + length (unsuccessful l).
Proof.
  unfold successful, unsuccessful. induction l as [|x l IH]; [done|].
  destruct (IsSuccessful x) eqn:Hx.
  - rewrite filter_cons_True by (rewrite Hx; exact I).
    rewrite (filter_cons_False (λ s, negb (IsSuccessful s)))
      by (rewrite Hx; simpl; tauto).
    simpl. lia.
  - rewrite filter_cons_False by (rewrite Hx; simpl; tauto).
    rewrite (filter_cons_True (λ s, negb (IsSuccessful s)))
      by (rewrite Hx; exact I).
    simpl. lia.
Qed.

(** X16. Without overflow the counters are the plain sums and counts: the
    score is computed from the exact weight sums, the total is the number of
    displayable, non-skipped scenarios, the failed count the number of
    those that are not successful and the successful count the number of
    those that are. *)
Lemma signOff_in_range (st : State W) :
  let c := conf st in
  let c' := conf (signOff st).2 in
  let sel := scoredCases c in
  GoInt.in_range (weights sel) →
  GoInt.in_range (weights (successful sel)) →
  GoInt.in_range (Z.of_nat (length sel)) →
  score c' = score_of (weights (successful sel)) (weights sel) ∧
  all c' = Z.of_nat (length sel) ∧
  failed c' = Z.of_nat (length (unsuccessful sel)) ∧
  successfull c' = Z.of_nat (length (successful sel)).
Proof.
  intros c c' sel HS Hsucc Hlen.
  destruct (tally_closed c) as (Hsum & Hmax & Hfailed & Hall).
  fold sel in Hmax, Hsum, Hfailed, Hall.
  destruct (signOff_conf st) as (_ & _ & now & dur & Hc').
  fold c c' in Hc'.
  assert (Hscore : score c' = score_of (t_sum (tally c)) (t_max (tally c)))
    by (by rewrite Hc').
  assert (Hok : successfull c' = GoInt.wrap (all c' - failed c'))
    by (by rewrite Hc').
  replace (all c') with (t_all (tally c)) in * by (by rewrite Hc').
  replace (failed c') with (t_failed (tally c)) in * by (by rewrite Hc').
  pose proof (successful_unsuccessful_length sel) as Hsplit.
  assert (Hun : GoInt.in_range (Z.of_nat (length (unsuccessful sel)))).
  { revert Hlen. unfold GoInt.in_range, GoInt.min_int, GoInt.max_int. lia. }
  assert (Hsu : GoInt.in_range (Z.of_nat (length (successful sel)))).
  { revert Hlen. unfold GoInt.in_range, GoInt.min_int, GoInt.max_int. lia. }
  rewrite wrap_in_range in Hmax, Hsum, Hall, Hfailed by done.
  rewrite Hok, Hscore, Hall, Hfailed, Hmax, Hsum.
  split_and!; try done.
  replace (Z.of_nat (length sel) - Z.of_nat (length (unsuccessful sel)))%Z
    with (Z.of_nat (length (successful sel))) by lia.
  by apply wrap_in_range.
Qed.
End Summary.

(** ** Unrun scenarios in the summary *)

Lemma weights_cons (x : ScenarioItem) (l : list ScenarioItem) :
  weights (x :: l) = (Weight x + weights l)%Z.
Proof. reflexivity. Qed.

Lemma weights_app (l1 l2 : list ScenarioItem) :
  weights (l1 ++ l2) = (weights l1 + weights l2)%Z.
Proof.
  unfold weights, sumZ. induction l1 as [|x l1 IH]; [done|].
  rewrite <- app_comm_cons, !fmap_cons. cbn [foldr]. rewrite IH. lia.
Qed.

Lemma scoredCases_insert (c : suitConfig) (pre post : list ScenarioItem) (x : ScenarioItem) :
  Cases c = pre ++ x :: post → scored x = true →
  scoredCases c = filter (λ s, scored s) pre ++ x :: filter (λ s, scored s) post ∧
  scoredCases (set_Cases (pre ++ post) c)
    = filter (λ s, scored s) pre ++ filter (λ s, scored s) post.
Proof.
  intros Hc Hx. unfold scoredCases. rewrite Hc. simpl.
  rewrite !filter_app, filter_cons_True by (rewrite Hx; exact I). done.
Qed.

(** C10. A displayable, non-skipped scenario whose status is still the
    unrun (empty) one is counted as failed: compared with the suite without
    it, the failed count and the total grow by one, its weight is added to
    the denominator [max], and the numerator [sum] is unchanged. *)
Theorem unrun_counts_as_failed (c : suitConfig) (pre post : list ScenarioItem)
    (x : ScenarioItem) :
  Cases c = pre ++ x :: post →
  Skip x = false → canShow x = true → Status x = ""%string →
  let c0 := set_Cases (pre ++ post) c in
  IsSuccessful x = false ∧
  t_failed (tally c) = GoInt.add (t_failed (tally c0)) 1 ∧
  t_all (tally c) = GoInt.add (t_all (tally c0)) 1 ∧
  t_max (tally c) = GoInt.add (t_max (tally c0)) (Weight x) ∧
  t_sum (tally c) = t_sum (tally c0).
Proof.
  intros Hc Hskip Hshow Hstatus c0.
  assert (Hx : scored x = true) by (unfold scored; by rewrite Hskip, Hshow).
  assert (Hfail : IsSuccessful x = false) by (unfold IsSuccessful; by rewrite Hstatus).
  destruct (scoredCases_insert c pre post x Hc Hx) as [Hin Hout]. fold c0 in Hout.
  destruct (tally_closed c) as (Hs & Hm & Hf & Ha).
  destruct (tally_closed c0) as (Hs0 & Hm0 & Hf0 & Ha0).
  rewrite Hs, Hm, Hf, Ha, Hs0, Hm0, Hf0, Ha0, Hin, Hout.
  unfold GoInt.add. rewrite !wrap_add_l.
  unfold successful, unsuccessful.
  rewrite !filter_app.
  rewrite (filter_cons_False (λ s, IsSuccessful s)) by (rewrite Hfail; simpl; tauto).
  rewrite (filter_cons_True (λ s, negb (IsSuccessful s))) by (rewrite Hfail; exact I).
  rewrite !weights_app, !length_app. simpl.
  split_and!; [done|f_equal; lia|f_equal; lia| |done].
  rewrite weights_cons. f_equal. lia.
Qed.

Lemma unrun_counts_as_failed_witness :
  let x := Toy.scenario "" "lint" "" 5 [] [] in
  let a := Toy.scenario "" "build" "exit 0" 2 [] [] in
  let c := getConf "" 0%nat (Toy.suite [a; x]) in
  t_failed (tally c) = 2%Z ∧ t_max (tally c) = 7%Z ∧ t_sum (tally c) = 0%Z.
Proof.
  intros x a c.
  destruct (unrun_counts_as_failed c
              [set_resolved a None "/home/ci" true true 2] []
              (set_resolved x None "/home/ci" true true 5))
    as (_ & Hf & _ & Hm & Hs); [reflexivity..|].
  rewrite Hf, Hm, Hs. vm_compute. done.
Defined.

(** ** End-to-end runs of the two scoring scenarios of the specification *)

(** One displayable scenario, [exit 0], weight 1: one passed, none failed,
    rated 100. *)
Example run_single_success :
  let r := run 0 "" (Toy.suite [Toy.scenario "" "only" "exit 0" 1 [] []]) 0%nat in
  r.1 = Ok () ∧
  Status <$> Cases (conf r.2) = ["success"%string] ∧
  successfull (conf r.2) = 1%Z ∧ failed (conf r.2) = 0%Z ∧
  score (conf r.2) = Float64.of_int 100.
Proof. vm_compute. done. Qed.

(** Weights 1 and 3, the first passes and the second fails: rated 25. *)
Example run_one_of_two :
  let r := run 0 ""
             (Toy.suite [Toy.scenario "" "first" "exit 0" 1 [] [];
                         Toy.scenario "" "second" "exit 1" 3 [] []]) 0%nat in
  r.1 = Ok () ∧
  successfull (conf r.2) = 1%Z ∧ failed (conf r.2) = 1%Z ∧
  score (conf r.2) = Float64.of_int 25.
Proof. vm_compute. done. Qed.

(** ** A zero denominator *)

Lemma div_by_zero_undefined (x : spec_float) :
  Float64.undefined (Float64.div x (Float64.of_int 0)) = true.
Proof. by destruct x. Qed.

Section ZeroDenominator.
Context {W : Type} `{!Runtime W}.

(** C3, as the code has it. When the denominator [max] is zero, [signOff]
    stores the float64 quotient [100 * float64(sum) / 0], which is NaN or
    an infinity, and there is no other marker for it. When no displayable,
    non-skipped scenario exists the quotient is NaN and [printSummary]
    prints nothing; when at least one is counted, [printSummary] prints
    the summary line with that quotient as its score. *)
Theorem zero_denominator_score (st : State W) :
  let c := conf st in
  let c' := conf (signOff st).2 in
  t_max (tally c) = 0%Z →
  Float64.undefined (score c') = true ∧
  (scoredCases c = [] → score c' = S754_nan ∧ printSummary c' = None) ∧
  ((all c' > 0)%Z →
     ∃ red, printSummary c'
            = Some (LSummary red (successfull c') (all c') (failed c')
                      (score c') (duration_ c'))).
Proof.
  intros c c' Hmax.
  destruct (tally_closed c) as (Hsum & _ & _ & Hall).
  destruct (signOff_conf st) as (_ & _ & now & dur & Hc').
  fold c c' in Hc'.
  assert (Hscore : score c' = score_of (t_sum (tally c)) (t_max (tally c)))
    by (by rewrite Hc').
  replace (t_all (tally c)) with (all c') in Hall by (by rewrite Hc').
  split_and!.
  - rewrite Hscore, Hmax. apply div_by_zero_undefined.
  - intros Hnone. rewrite Hnone in Hsum, Hall. split.
    + rewrite Hscore, Hmax, Hsum. reflexivity.
    + unfold printSummary. by rewrite Hall.
  - intros Hpos. unfold printSummary.
    destruct (all c' >? 0)%Z eqn:Hgt; [|lia].
    destruct (failed c' >? 0)%Z; by eexists.
Qed.
End ZeroDenominator.

Lemma zero_denominator_score_witness :
  let st := (run 0 "" cancelling_suite 0%nat).2 in
  Float64.undefined (score (conf (signOff st).2)) = true.
Proof.
  intros st.
  exact (proj1 (zero_denominator_score st ltac:(vm_compute; reflexivity))).
Defined.

(** C3 as stated fails: the denominator is zero and the summary line
    carries NaN as the score. *)
Lemma zero_denominator_reports_nan :
  let c := conf (run 0 "" cancelling_suite 0%nat).2 in
  t_max (tally c) = 0%Z ∧
  printSummary c = Some (LSummary true 0 2 2 S754_nan "5ms") ∧
  Float64.undefined S754_nan = true.
Proof. vm_compute. done. Qed.

(** ** The executor and the runner *)

Lemma calls_app t1 t2 : calls (t1 ++ t2) = calls t1 ++ calls t2.
Proof. apply omap_app. Qed.

Lemma spawns_app t1 t2 : spawns (t1 ++ t2) = spawns t1 ++ spawns t2.
Proof. apply omap_app. Qed.

Lemma execs_app t1 t2 : execs (t1 ++ t2) = execs t1 ++ execs t2.
Proof. apply omap_app. Qed.

Lemma keeps_refl cs : keeps cs cs.
Proof. by split. Qed.

Lemma keeps_trans cs1 cs2 cs3 : keeps cs1 cs2 → keeps cs2 cs3 → keeps cs1 cs3.
Proof.
  intros [Hs1 Hk1] [Hs2 Hk2]. split; [congruence|].
  intros j s Hj Hscript. apply Hk2; [|done]. by apply Hk1.
Qed.

Lemma keeps_lookup cs cs' j s' :
  keeps cs cs' → cs' !! j = Some s' → ∃ s, cs !! j = Some s ∧ static s = static s'.
Proof.
  intros [Hs _] Hj.
  assert (Hl : (static <$> cs) !! j = Some (static s'))
    by (by rewrite Hs, list_lookup_fmap, Hj).
  rewrite list_lookup_fmap in Hl.
  destruct (cs !! j) as [s|]; [|done]. exists s. simpl in Hl.
  split; [done|congruence].
Qed.

Lemma keeps_lookup_fwd cs cs' j s :
  keeps cs cs' → cs !! j = Some s → ∃ s', cs' !! j = Some s' ∧ static s = static s'.
Proof.
  intros [Hs _] Hj.
  assert (Hl : (static <$> cs') !! j = Some (static s))
    by (by rewrite <- Hs, list_lookup_fmap, Hj).
  rewrite list_lookup_fmap in Hl.
  destruct (cs' !! j) as [s'|]; [|done]. exists s'. simpl in Hl.
  split; [done|congruence].
Qed.


Lemma static_fields s s' :
  static s = static s' →
  Name s = Name s' ∧ Script s = Script s' ∧ Before s = Before s' ∧
  After s = After s' ∧ Skip s = Skip s' ∧ canShow s = canShow s' ∧
  canRun s = canRun s' ∧ Weight s = Weight s' ∧ GlobalEnv s = GlobalEnv s' ∧
  Workdir s = Workdir s' ∧ Case s = Case s'.
Proof.
  intros Heq.
  split_and!;
    [ exact (f_equal Name Heq) | exact (f_equal Script Heq)
    | exact (f_equal Before Heq) | exact (f_equal After Heq)
    | exact (f_equal Skip Heq) | exact (f_equal canShow Heq)
    | exact (f_equal canRun Heq) | exact (f_equal Weight Heq)
    | exact (f_equal GlobalEnv Heq) | exact (f_equal Workdir Heq)
    | exact (f_equal Case Heq) ].
Qed.

Lemma keeps_insert (cs : list ScenarioItem) id s s' :
  cs !! id = Some s → static s' = static s → Script s ≠ ""%string →
  keeps cs (<[id := s']> cs).
Proof.
  intros Hid Hst Hscript. split.
  - rewrite list_fmap_insert, Hst. symmetry. apply list_insert_id.
    by rewrite list_lookup_fmap, Hid.
  - intros j x Hj Hx. rewrite list_lookup_insert_ne; [done|].
    intros ->. congruence.
Qed.

(** *** Name lookup *)

Lemma getIdByName_from_names (id : nat) (cs cs' : list ScenarioItem) (name : string) :
  Name <$> cs = Name <$> cs' →
  getIdByName_from id cs name = getIdByName_from id cs' name.
Proof.
  revert id cs'. induction cs as [|s cs IH]; intros id [|s' cs'] Heq;
    try done.
  rewrite !fmap_cons in Heq. injection Heq as Hn Hrest. simpl.
  rewrite Hn. destruct (decide (Name s' = name)); [done|]. by apply IH.
Qed.

Lemma static_names (cs cs' : list ScenarioItem) :
  static <$> cs = static <$> cs' → Name <$> cs = Name <$> cs'.
Proof.
  intros Heq.
  assert (Hn : ∀ l : list ScenarioItem, Name <$> l = Name <$> (static <$> l)).
  { intros l. rewrite <- list_fmap_compose. done. }
  by rewrite (Hn cs), (Hn cs'), Heq.
Qed.

Lemma getIdByName_keeps (c c' : suitConfig) (name : string) :
  keeps (Cases c) (Cases c') → getIdByName c name = getIdByName c' name.
Proof.
  intros [Hs _]. unfold getIdByName.
  by apply getIdByName_from_names, static_names.
Qed.

(** The result is the position of the first scenario of that name, or -1
    when no scenario has it. *)
Lemma getIdByName_from_spec (id : nat) (cs : list ScenarioItem) (name : string) :
  (getIdByName_from id cs name = (-1)%Z ∧ name ∉ Name <$> cs) ∨
  (∃ k s, getIdByName_from id cs name = Z.of_nat (id + k) ∧
          cs !! k = Some s ∧ Name s = name ∧
          ∀ k' s', k' < k → cs !! k' = Some s' → Name s' ≠ name).
Proof.
  revert id. induction cs as [|s cs IH]; intros id; cbn [getIdByName_from].
  - left. split; [done|]. by intros ?%elem_of_nil.
  - destruct (decide (Name s = name)) as [Heq|Hne].
    + right. exists 0, s. rewrite Nat.add_0_r. split_and!; [done..|]. lia.
    + destruct (IH (S id)) as [[Hm Hnone]|(k & x & Hr & Hk & Hx & Hfirst)].
      * left. split; [done|]. rewrite fmap_cons, elem_of_cons. naive_solver.
      * right. exists (S k), x. split_and!; [|done|done|].
        -- rewrite Hr. f_equal. lia.
        -- intros [|k'] s' Hlt Hs'; simpl in Hs'; [by simplify_eq|].
           eapply Hfirst; [|done]. lia.
Qed.

Lemma getIdByName_spec (c : suitConfig) (name : string) :
  (getIdByName c name = (-1)%Z ∧ name ∉ Name <$> Cases c) ∨
  (∃ k s, getIdByName c name = Z.of_nat k ∧ Cases c !! k = Some s ∧
          Name s = name ∧
          ∀ k' s', k' < k → Cases c !! k' = Some s' → Name s' ≠ name).
Proof. exact (getIdByName_from_spec 0 (Cases c) name). Qed.

Lemma getIdByName_unresolved (c : suitConfig) (name : string) :
  name ∉ Name <$> Cases c ↔ getIdByName c name = (-1)%Z.
Proof.
  destruct (getIdByName_spec c name) as [[Hm Hnone]|(k & s & Hr & Hk & Hs & _)].
  - done.
  - split; [|lia]. intros Hnot. exfalso. apply Hnot.
    apply list_elem_of_fmap. exists s. split; [done|].
    by eapply list_elem_of_lookup_2.
Qed.

Section Runner.
Context {W : Type} `{!Runtime W}.
Variable workdir : string.

Lemma bind_ok {A B} (m : M W A) (f : A → M W B) (st st1 : State W) (a : A) :
  m st = (Ok a, st1) → (m ≫= f) st = f a st1.
Proof. intros Hm. unfold mbind, M_bind. by rewrite Hm. Qed.

Lemma bind_panic {A B} (m : M W A) (f : A → M W B) (st st1 : State W) (i : Z) :
  m st = (Panic i, st1) → (m ≫= f) st = (Panic i, st1).
Proof. intros Hm. unfold mbind, M_bind. by rewrite Hm. Qed.

Lemma has_script_keeps cs cs' j : keeps cs cs' → has_script cs j = has_script cs' j.
Proof.
  intros Hk. unfold has_script.
  destruct (cs !! j) as [s|] eqn:Hj.
  - destruct (keeps_lookup_fwd _ _ _ _ Hk Hj) as (s' & -> & Hst).
    apply static_fields in Hst as (_ & -> & _). done.
  - destruct (cs' !! j) as [s'|] eqn:Hj'; [|done].
    destruct (keeps_lookup _ _ _ _ Hk Hj') as (s & Hs & _). congruence.
Qed.

(** *** [RunBash] *)

Lemma RunBash_scriptless (st : State W) (id : nat) (s : ScenarioItem) :
  Cases (conf st) !! id = Some s → Script s = ""%string →
  RunBash workdir id st = (Ok (""%string, None), record st [EvRunBash id]).
Proof.
  intros Hid Hs. unfold RunBash, mbind, M_bind, caseAt, emit. rewrite Hid.
  destruct (decide (Script s ≠ ""%string)); [done|]. reflexivity.
Qed.

Lemma RunBash_scripted (st : State W) (id : nat) (s : ScenarioItem) :
  Cases (conf st) !! id = Some s → Script s ≠ ""%string →
  let r := CombinedOutput (script_Cmd workdir s (world st)) (world st) in
  RunBash workdir id st = (Ok r.1, ran workdir st id s r).
Proof.
  intros Hid Hs. unfold RunBash, mbind, M_bind, caseAt, emit. rewrite Hid.
  destruct (decide (Script s ≠ ""%string)); [|done].
  unfold readWorld, combinedOutput, setCase, modifyConfig, mret, M_ret, ran. simpl.
  destruct (CombinedOutput (script_Cmd workdir s (world st)) (world st))
    as [[out err] w'].
  simpl. by rewrite <- app_assoc.
Qed.

Lemma did_refl (st : State W) : did st st [] [].
Proof.
  split; [apply keeps_refl|]. exists []. by rewrite app_nil_r.
Qed.

Lemma did_trans (st1 st2 st3 : State W) cl1 sp1 cl2 sp2 :
  did st1 st2 cl1 sp1 → did st2 st3 cl2 sp2 →
  did st1 st3 (cl1 ++ cl2) (sp1 ++ sp2).
Proof.
  intros [Hk1 (n1 & Ht1 & Hc1 & Hs1 & He1)] [Hk2 (n2 & Ht2 & Hc2 & Hs2 & He2)].
  split; [by eapply keeps_trans|].
  exists (n1 ++ n2). rewrite Ht2, Ht1, app_assoc, calls_app, spawns_app, execs_app.
  by rewrite Hc1, Hc2, Hs1, Hs2, He1, He2.
Qed.

Lemma RunBash_did (st : State W) (id : nat) (s : ScenarioItem) :
  Cases (conf st) !! id = Some s →
  ∃ r st', RunBash workdir id st = (Ok r, st') ∧
           did st st' [id] (if has_script (Cases (conf st)) id then [id] else []).
Proof.
  intros Hid. unfold has_script. rewrite Hid.
  destruct (decide (Script s = ""%string)) as [Hs|Hs].
  - rewrite (RunBash_scriptless st id s Hid Hs).
    rewrite bool_decide_eq_false_2 by (by intros ?).
    eexists _, _. split; [done|]. split; [apply keeps_refl|]. by eexists.
  - rewrite (RunBash_scripted st id s Hid Hs).
    rewrite bool_decide_eq_true_2 by done.
    eexists _, _. split; [done|]. split; [|by eexists].
    simpl. by apply (keeps_insert _ id s).
Qed.

(** *** Before and after hooks *)

Lemma runHook_unresolved (st : State W) (name : string) :
  getIdByName (conf st) name = (-1)%Z →
  runHook workdir name st = (Panic (-1), st).
Proof.
  intros Hm. unfold runHook, mbind, M_bind, getConfig, slot. rewrite Hm.
  destruct (decide _) as [Hr|]; [lia|done].
Qed.

Lemma runHook_resolved (st : State W) (name : string) :
  getIdByName (conf st) name ≠ (-1)%Z →
  let id := Z.to_nat (getIdByName (conf st) name) in
  ∃ st', runHook workdir name st = (Ok (), st') ∧
         did st st' [id] (if has_script (Cases (conf st)) id then [id] else []).
Proof.
  intros Hne id.
  destruct (getIdByName_spec (conf st) name)
    as [[Hm _]|(k & s & Hr & Hk & _)]; [done|].
  assert (Hid : id = k) by (unfold id; rewrite Hr; lia).
  destruct (RunBash_did st k s Hk) as (r & st' & Hrun & Hdid).
  exists st'. rewrite Hid. split; [|done].
  unfold runHook, mbind, M_bind, getConfig, slot. rewrite Hr.
  pose proof (lookup_lt_Some _ _ _ Hk) as Hlt.
  destruct (decide _) as [_|Hout]; [|lia].
  rewrite Nat2Z.id, Hrun. done.
Qed.

Lemma resolve_keeps c c' names :
  keeps (Cases c) (Cases c') → resolve c names = resolve c' names.
Proof.
  intros Hk. unfold resolve. apply list_fmap_ext. intros _ name _.
  by rewrite (getIdByName_keeps c c' name Hk).
Qed.

Lemma filter_has_script_keeps cs cs' (l : list nat) :
  keeps cs cs' →
  filter (λ j, has_script cs j) l = filter (λ j, has_script cs' j) l.
Proof.
  intros Hk. apply list_filter_iff. intros j.
  by rewrite (has_script_keeps cs cs' j Hk).
Qed.

Lemma hooks_resolved (names : list string) (st : State W) :
  (∀ name, name ∈ names → getIdByName (conf st) name ≠ (-1)%Z) →
  ∃ st', forM_ names (runHook workdir) st = (Ok (), st') ∧
         did st st' (resolve (conf st) names)
           (filter (λ j, has_script (Cases (conf st)) j) (resolve (conf st) names)).
Proof.
  revert st. induction names as [|name names IH]; intros st Hall.
  - exists st. split; [done|]. apply did_refl.
  - destruct (runHook_resolved st name) as (st1 & Hrun & Hdid1);
      [apply Hall; left|].
    pose proof (proj1 Hdid1) as Hk.
    destruct (IH st1) as (st2 & Hrest & Hdid2).
    { intros n Hn. rewrite <- (getIdByName_keeps _ _ n Hk). apply Hall. by right. }
    exists st2. split.
    + cbn [forM_]. by rewrite (bind_ok _ _ _ _ _ Hrun).
    + rewrite <- (resolve_keeps _ _ names Hk) in Hdid2.
      rewrite <- (filter_has_script_keeps _ _ _ Hk) in Hdid2.
      pose proof (did_trans _ _ _ _ _ _ _ Hdid1 Hdid2) as Hdid.
      unfold resolve at 1 2. rewrite fmap_cons, filter_cons.
      destruct (has_script (Cases (conf st)) _) eqn:Hs;
        (destruct (decide _) as [Hd|Hd]; [|try (by destruct Hd)]); try done.
Qed.
End Runner.

Section Exec.
Context {W : Type} `{!Runtime W}.
Variable workdir : string.

Lemma did_calls_spawn_filter (st st' : State W) (cl : list nat) :
  keeps (Cases (conf st)) (Cases (conf st')) →
  filter (λ j, has_script (Cases (conf st')) j) cl
  = filter (λ j, has_script (Cases (conf st)) j) cl.
Proof. intros Hk. symmetry. by apply filter_has_script_keeps. Qed.

(** [exec] on a scenario with a script whose helper names all resolve. *)
Lemma exec_scripted (st : State W) (item : nat) (tc : ScenarioItem) :
  Cases (conf st) !! item = Some tc → Script tc ≠ ""%string →
  (∀ name, name ∈ Before tc ++ After tc → getIdByName (conf st) name ≠ (-1)%Z) →
  ∃ st', exec workdir item st = (Ok (), st') ∧
    keeps (Cases (conf st)) (Cases (conf st')) ∧
    ∃ new, trace st' = trace st ++ EvExec item :: new ∧
      calls new = resolve (conf st) (Before tc) ++ item :: resolve (conf st) (After tc) ∧
      spawns new = filter (λ j, has_script (Cases (conf st)) j) (calls new) ∧
      execs new = [].
Proof.
  intros Hitem Hs Hall. unfold exec.
  set (st0 := record st [EvExec item]).
  assert (H0 : emit (EvExec item) st = (Ok (), st0)) by reflexivity.
  rewrite (bind_ok _ _ _ _ _ H0).
  assert (Hc0 : caseAt item st0 = (Ok tc, st0))
    by (unfold caseAt; simpl; by rewrite Hitem).
  rewrite (bind_ok _ _ _ _ _ Hc0).
  destruct (decide (Script tc ≠ ""%string)) as [_|]; [|done].
  destruct (time_Now (world st0)) as [t1 w1] eqn:Ht1.
  set (st1 := {| conf := conf st0; world := w1; trace := trace st0 |}).
  assert (H1 : timeNow st0 = (Ok t1, st1)) by (unfold timeNow; by rewrite Ht1).
  rewrite (bind_ok _ _ _ _ _ H1).
  destruct (hooks_resolved workdir (Before tc) st1) as (st2 & Hb & Hd2).
  { intros name Hn. apply Hall. apply elem_of_app. by left. }
  rewrite (bind_ok _ _ _ _ _ Hb).
  pose proof (proj1 Hd2) as Hk2. change (conf st1) with (conf st) in Hk2, Hd2.
  destruct (keeps_lookup_fwd _ _ item tc Hk2 Hitem) as (tc2 & Hitem2 & Hst2).
  destruct (RunBash_did workdir st2 item tc2 Hitem2) as (r & st3 & Hr & Hd3).
  rewrite (bind_ok _ _ _ _ _ Hr).
  pose proof (keeps_trans _ _ _ Hk2 (proj1 Hd3)) as Hk3.
  destruct (hooks_resolved workdir (After tc) st3) as (st4 & Ha & Hd4).
  { intros name Hn. rewrite <- (getIdByName_keeps _ _ name Hk3).
    apply Hall. apply elem_of_app. by right. }
  rewrite (bind_ok _ _ _ _ _ Ha).
  pose proof (keeps_trans _ _ _ Hk3 (proj1 Hd4)) as Hk4.
  destruct (time_Now (world st4)) as [t2 w2] eqn:Ht2.
  set (st5 := {| conf := conf st4; world := w2; trace := trace st4 |}).
  assert (H5 : timeNow st4 = (Ok t2, st5)) by (unfold timeNow; by rewrite Ht2).
  rewrite (bind_ok _ _ _ _ _ H5).
  destruct (keeps_lookup_fwd _ _ item tc Hk4 Hitem) as (cur & Hcur & Hstc).
  assert (Hc5 : caseAt item st5 = (Ok cur, st5))
    by (unfold caseAt; simpl; by rewrite Hcur).
  rewrite (bind_ok _ _ _ _ _ Hc5).
  eexists. split; [reflexivity|]. simpl. split.
  { eapply keeps_trans; [exact Hk4|].
    apply (keeps_insert _ item cur); [done|done|].
    apply static_fields in Hstc as (_ & Hscript & _). congruence. }
  rewrite <- (resolve_keeps _ _ (After tc) Hk3) in Hd4.
  rewrite (did_calls_spawn_filter _ _ _ Hk3) in Hd4.
  rewrite <- (has_script_keeps _ _ item Hk2) in Hd3.
  pose proof (did_trans _ _ _ _ _ _ _ Hd2 (did_trans _ _ _ _ _ _ _ Hd3 Hd4))
    as (_ & new & Ht & Hcl & Hsp & Hex).
  exists new. split_and!.
  - rewrite Ht. simpl. by rewrite <- app_assoc.
  - by rewrite Hcl.
  - rewrite Hsp, Hcl, !filter_app, filter_cons, filter_nil.
    destruct (has_script (Cases (conf st)) item);
      (destruct (decide _) as [Hd|Hd]; [|try (by destruct Hd)]); done.
  - done.
Qed.

(** C7. When [exec] runs a scenario with a script and every name of its
    before and after lists names a scenario, the executor is called on the
    scenarios the before names resolve to, in the listed order, then on
    the scenario itself, then on the scenarios the after names resolve to,
    in the listed order; each of these calls launches the script of its
    scenario if it has one, whatever its skip, displayable and runnable
    flags are. *)
Theorem exec_hook_order (st : State W) (item : nat) (tc : ScenarioItem) :
  Cases (conf st) !! item = Some tc → Script tc ≠ ""%string →
  (∀ name, name ∈ Before tc ++ After tc → name ∈ Name <$> Cases (conf st)) →
  ∃ st' new,
    exec workdir item st = (Ok (), st') ∧
    trace st' = trace st ++ EvExec item :: new ∧
    calls new = resolve (conf st) (Before tc) ++ [item] ++ resolve (conf st) (After tc) ∧
    spawns new = filter (λ j, has_script (Cases (conf st)) j) (calls new).
Proof.
  intros Hitem Hs Hall.
  destruct (exec_scripted st item tc Hitem Hs)
    as (st' & Hrun & _ & new & Ht & Hcl & Hsp & _).
  { intros name Hn Hm. apply getIdByName_unresolved in Hm. by apply Hm, Hall. }
  by exists st', new.
Qed.
End Exec.

Lemma exec_hook_order_witness :
  ∃ st' new,
    exec "" 2 hooked_state = (Ok (), st') ∧
    trace st' = EvExec 2 :: new ∧
    calls new = [0; 2; 1] ∧ spawns new = [0; 2].
Proof.
  destruct (exec_hook_order "" hooked_state 2
              (set_resolved (Toy.scenario "" "main" "exit 0" 1 ["setup"] ["cleanup"])
                 None "/home/ci" true true 1))
    as (st' & new & Hrun & Ht & Hcl & Hsp).
  - reflexivity.
  - simpl. discriminate.
  - simpl. intros name Hn.
    apply elem_of_cons in Hn as [->|Hn]; [repeat constructor|].
    apply elem_of_cons in Hn as [->|Hn]; [repeat constructor|].
    by apply elem_of_nil in Hn.
  - exists st', new. rewrite Hsp, Hcl. split_and!; done.
Defined.

(** ** What a run leaves untouched *)

Section Frame.
Context {W : Type} `{!Runtime W}.
Variable verbosity : Z.
Variable workdir : string.

Lemma frame_bind c0 {A B} (m : M W A) (f : A → M W B) :
  frame c0 m → (∀ a, frame c0 (f a)) → frame c0 (m ≫= f).
Proof.
  intros Hm Hf st Hk. specialize (Hm st Hk). unfold mbind, M_bind.
  destruct (m st) as [[a|i] st1]; simpl in *; [by apply Hf|done].
Qed.

Lemma quiet_bind {A B} (m : M W A) (f : A → M W B) :
  quiet m → (∀ a, quiet (f a)) → quiet (m ≫= f).
Proof.
  intros Hm Hf st. destruct (Hm st) as (n1 & Ht1 & He1). unfold mbind, M_bind.
  destruct (m st) as [[a|i] st1]; simpl in *; [|by exists n1].
  destruct (Hf a st1) as (n2 & Ht2 & He2).
  exists (n1 ++ n2). by rewrite Ht2, Ht1, app_assoc, execs_app, He1, He2.
Qed.

Lemma reads_bind {A B} (m : M W A) (f : A → M W B) :
  reads m → (∀ a, reads (f a)) → reads (m ≫= f).
Proof.
  intros Hm Hf st. specialize (Hm st). unfold mbind, M_bind.
  destruct (m st) as [[a|i] st1]; simpl in *; [|done].
  by rewrite Hf.
Qed.

Lemma reads_frame c0 {A} (m : M W A) : reads m → frame c0 m.
Proof. intros Hm st Hk. by rewrite Hm. Qed.

Lemma reads_ret {A} (a : A) : reads (mret a : M W A).
Proof. by intros st. Qed.

Lemma quiet_ret {A} (a : A) : quiet (mret a : M W A).
Proof. intros st. exists []. by rewrite app_nil_r. Qed.

Lemma reads_emit e : reads (emit e : M W ()).
Proof. by intros st. Qed.

Lemma quiet_logLine l : quiet (logLine l : M W ()).
Proof. intros st. by exists [EvLog l]. Qed.

Lemma quiet_call id : quiet (emit (EvRunBash id) : M W ()).
Proof. intros st. by exists [EvRunBash id]. Qed.

Lemma reads_timeNow : reads (timeNow : M W Z).
Proof. intros st. unfold timeNow. by destruct (time_Now (world st)). Qed.

Lemma quiet_timeNow : quiet (timeNow : M W Z).
Proof.
  intros st. exists []. unfold timeNow. destruct (time_Now (world st)).
  simpl. by rewrite app_nil_r.
Qed.

Lemma reads_caseAt id : reads (caseAt id : M W ScenarioItem).
Proof. intros st. unfold caseAt. by destruct (Cases (conf st) !! id). Qed.

Lemma quiet_caseAt id : quiet (caseAt id : M W ScenarioItem).
Proof.
  intros st. exists []. unfold caseAt.
  destruct (Cases (conf st) !! id); by rewrite app_nil_r.
Qed.

Lemma reads_slot i : reads (slot i : M W nat).
Proof. intros st. unfold slot. by destruct (decide _). Qed.

Lemma quiet_slot i : quiet (slot i : M W nat).
Proof.
  intros st. exists []. unfold slot. destruct (decide _); by rewrite app_nil_r.
Qed.

Lemma reads_getConfig : reads (getConfig : M W suitConfig).
Proof. by intros st. Qed.

Lemma quiet_getConfig : quiet (getConfig : M W suitConfig).
Proof. intros st. exists []. by rewrite app_nil_r. Qed.

Lemma reads_modifyConfig f :
  (∀ c, Cases (f c) = Cases c) → reads (modifyConfig f : M W ()).
Proof. intros Hf st. apply Hf. Qed.

Lemma quiet_modifyConfig f : quiet (modifyConfig f : M W ()).
Proof. intros st. exists []. simpl. by rewrite app_nil_r. Qed.

Lemma quiet_readWorld {A} (f : W → A) : quiet (readWorld f).
Proof. intros st. exists []. simpl. by rewrite app_nil_r. Qed.

Lemma frame_forM_ c0 {A} (l : list A) (f : A → M W ()) :
  (∀ a, frame c0 (f a)) → frame c0 (forM_ l f).
Proof.
  intros Hf. induction l as [|a l IH]; [by intros st|].
  cbn [forM_]. by apply frame_bind.
Qed.

Lemma quiet_forM_ {A} (l : list A) (f : A → M W ()) :
  (∀ a, quiet (f a)) → quiet (forM_ l f).
Proof.
  intros Hf. induction l as [|a l IH]; [apply quiet_ret|].
  cbn [forM_]. by apply quiet_bind.
Qed.

Lemma reads_forM_ {A} (l : list A) (f : A → M W ()) :
  (∀ a, reads (f a)) → reads (forM_ l f).
Proof.
  intros Hf. induction l as [|a l IH]; [by intros st|].
  cbn [forM_]. by apply reads_bind.
Qed.

(** *** The executor and the runner *)

Lemma frame_RunBash c0 id : frame c0 (RunBash workdir id).
Proof.
  intros st Hk. destruct (Cases (conf st) !! id) as [s|] eqn:Hid.
  - destruct (RunBash_did workdir st id s Hid) as (r & st' & -> & Hk' & _).
    simpl. by eapply keeps_trans.
  - unfold RunBash, mbind, M_bind, caseAt. by rewrite Hid.
Qed.

Lemma quiet_RunBash id : quiet (RunBash workdir id).
Proof.
  intros st. destruct (Cases (conf st) !! id) as [s|] eqn:Hid.
  - destruct (RunBash_did workdir st id s Hid)
      as (r & st' & -> & _ & new & Ht & _ & _ & He).
    by exists new.
  - unfold RunBash, mbind, M_bind, caseAt. rewrite Hid.
    exists []. by rewrite app_nil_r.
Qed.

Lemma frame_runHook c0 name : frame c0 (runHook workdir name).
Proof.
  unfold runHook. apply frame_bind; [apply reads_frame, reads_getConfig|].
  intros c. apply frame_bind; [apply reads_frame, reads_slot|].
  intros id. apply frame_bind; [apply frame_RunBash|].
  intros _. apply reads_frame, reads_ret.
Qed.

Lemma quiet_runHook name : quiet (runHook workdir name).
Proof.
  unfold runHook. apply quiet_bind; [apply quiet_getConfig|].
  intros c. apply quiet_bind; [apply quiet_slot|].
  intros id. apply quiet_bind; [apply quiet_RunBash|].
  intros _. apply quiet_ret.
Qed.

(** [testCase.Duration = ...] at the end of [exec]. *)
Lemma frame_stamp c0 item d :
  (∀ s, c0 !! item = Some s → Script s ≠ ""%string) →
  frame c0 (current ← caseAt item; setCase item (set_Duration d current) : M W ()).
Proof.
  intros Hscript st Hk. unfold mbind, M_bind, caseAt.
  destruct (Cases (conf st) !! item) as [cur|] eqn:Hcur; [|done].
  simpl. eapply keeps_trans; [exact Hk|].
  apply (keeps_insert _ item cur); [done|done|].
  destruct (keeps_lookup _ _ _ _ Hk Hcur) as (s & Hs & Hst).
  apply static_fields in Hst as (_ & Hsc & _). rewrite <- Hsc. by apply Hscript.
Qed.

Lemma frame_exec c0 item : frame c0 (exec workdir item).
Proof.
  intros st Hk. unfold exec.
  set (st0 := record st [EvExec item]).
  rewrite (bind_ok (emit (EvExec item)) _ st st0 () eq_refl).
  assert (Hk0 : keeps c0 (Cases (conf st0))) by exact Hk.
  destruct (Cases (conf st) !! item) as [tc|] eqn:Hitem.
  - assert (Hc : caseAt item st0 = (Ok tc, st0))
      by (unfold caseAt; simpl; by rewrite Hitem).
    rewrite (bind_ok _ _ _ _ _ Hc).
    destruct (decide (Script tc ≠ ""%string)) as [Hs|]; [|done].
    refine (frame_bind c0 _ _ _ _ st0 Hk0);
      [apply reads_frame, reads_timeNow|]. intros t1.
    apply frame_bind; [apply frame_forM_; intros; apply frame_runHook|].
    intros _. apply frame_bind; [apply frame_RunBash|].
    intros _. apply frame_bind; [apply frame_forM_; intros; apply frame_runHook|].
    intros _. apply frame_bind; [apply reads_frame, reads_timeNow|].
    intros t2. apply frame_stamp. intros s Hs0.
    destruct (keeps_lookup_fwd _ _ _ _ Hk Hs0) as (s' & Hs' & Hst).
    apply static_fields in Hst as (_ & Hsc & _). congruence.
  - assert (Hc : caseAt item st0 = (Panic (Z.of_nat item), st0))
      by (unfold caseAt; simpl; by rewrite Hitem).
    by rewrite (bind_panic _ _ _ _ _ Hc).
Qed.

(** After its first event, [exec] adds no further [EvExec]. *)
Lemma exec_trace item (st : State W) :
  ∃ new, trace (exec workdir item st).2 = trace st ++ EvExec item :: new ∧
         execs new = [].
Proof.
  unfold exec.
  set (st0 := record st [EvExec item]).
  rewrite (bind_ok (emit (EvExec item)) _ st st0 () eq_refl).
  assert (Hq : quiet (testCase ← caseAt item;
                      if decide (Script testCase ≠ ""%string) then
                        taskStartTime ← timeNow;
                        forM_ (Before testCase) (runHook workdir);;
                        RunBash workdir item;;
                        forM_ (After testCase) (runHook workdir);;
                        finish ← timeNow;
                        current ← caseAt item;
                        setCase item (set_Duration (duration taskStartTime finish) current)
                      else mret ())).
  { apply quiet_bind; [apply quiet_caseAt|]. intros tc.
    destruct (decide _); [|apply quiet_ret].
    apply quiet_bind; [apply quiet_timeNow|]. intros t1.
    apply quiet_bind; [apply quiet_forM_; intros; apply quiet_runHook|].
    intros _. apply quiet_bind; [apply quiet_RunBash|].
    intros _. apply quiet_bind; [apply quiet_forM_; intros; apply quiet_runHook|].
    intros _. apply quiet_bind; [apply quiet_timeNow|].
    intros t2. apply quiet_bind; [apply quiet_caseAt|].
    intros cur. apply quiet_modifyConfig. }
  destruct (Hq st0) as (new & Ht & He). exists new. split; [|done].
  rewrite Ht. simpl. by rewrite <- app_assoc.
Qed.

Lemma exec_scriptless (st : State W) (item : nat) (tc : ScenarioItem) :
  Cases (conf st) !! item = Some tc → Script tc = ""%string →
  exec workdir item st = (Ok (), record st [EvExec item]).
Proof.
  intros Hitem Hs. unfold exec.
  set (st0 := record st [EvExec item]).
  rewrite (bind_ok (emit (EvExec item)) _ st st0 () eq_refl).
  assert (Hc : caseAt item st0 = (Ok tc, st0))
    by (unfold caseAt; simpl; by rewrite Hitem).
  rewrite (bind_ok _ _ _ _ _ Hc).
  by destruct (decide (Script tc ≠ ""%string)).
Qed.

(** *** Reporting and the driver *)

Lemma reads_printHook name : reads (printHook name : M W ()).
Proof.
  unfold printHook.
  apply reads_bind; [apply reads_emit|]. intros _.
  apply reads_bind; [apply reads_getConfig|]. intros c.
  apply reads_bind; [apply reads_slot|]. intros id.
  apply reads_bind; [apply reads_caseAt|]. intros helper.
  repeat (apply reads_bind; [apply reads_emit|]; intros _).
  apply reads_emit.
Qed.

Lemma quiet_printHook name : quiet (printHook name : M W ()).
Proof.
  unfold printHook.
  apply quiet_bind; [apply quiet_logLine|]. intros _.
  apply quiet_bind; [apply quiet_getConfig|]. intros c.
  apply quiet_bind; [apply quiet_slot|]. intros id.
  apply quiet_bind; [apply quiet_caseAt|]. intros helper.
  repeat (apply quiet_bind; [apply quiet_logLine|]; intros _).
  apply quiet_logLine.
Qed.

Lemma reads_printTestStatus id asId : reads (printTestStatus verbosity id asId : M W ()).
Proof.
  unfold printTestStatus.
  apply reads_bind; [apply reads_caseAt|]. intros tc.
  apply reads_bind; [apply reads_getConfig|]. intros c.
  destruct (decide _); [|apply reads_ret].
  destruct (CanShow tc); [|apply reads_ret].
  apply reads_bind; [destruct (IsSuccessful tc); apply reads_emit|]. intros _.
  destruct (_ || _); [|apply reads_ret].
  apply reads_bind; [apply reads_forM_, reads_printHook|]. intros _.
  repeat (apply reads_bind; [apply reads_emit|]; intros _).
  apply reads_forM_, reads_printHook.
Qed.

Lemma quiet_printTestStatus id asId : quiet (printTestStatus verbosity id asId : M W ()).
Proof.
  unfold printTestStatus.
  apply quiet_bind; [apply quiet_caseAt|]. intros tc.
  apply quiet_bind; [apply quiet_getConfig|]. intros c.
  destruct (decide _); [|apply quiet_ret].
  destruct (CanShow tc); [|apply quiet_ret].
  apply quiet_bind; [destruct (IsSuccessful tc); apply quiet_logLine|]. intros _.
  destruct (_ || _); [|apply quiet_ret].
  apply quiet_bind; [apply quiet_forM_, quiet_printHook|]. intros _.
  repeat (apply quiet_bind; [apply quiet_logLine|]; intros _).
  apply quiet_forM_, quiet_printHook.
Qed.

Lemma reads_printHeader : reads (printHeader : M W ()).
Proof.
  unfold printHeader.
  apply reads_bind; [apply reads_getConfig|]. intros c.
  apply reads_bind; [apply reads_timeNow|]. intros now.
  apply reads_bind; [by apply reads_modifyConfig|]. intros _.
  repeat (destruct (_ : bool); [apply reads_emit|]). apply reads_ret.
Qed.

Lemma quiet_printHeader : quiet (printHeader : M W ()).
Proof.
  unfold printHeader.
  apply quiet_bind; [apply quiet_getConfig|]. intros c.
  apply quiet_bind; [apply quiet_timeNow|]. intros now.
  apply quiet_bind; [by apply quiet_modifyConfig|]. intros _.
  repeat (destruct (_ : bool); [apply quiet_logLine|]). apply quiet_ret.
Qed.

Lemma reads_signOff : reads (signOff : M W ()).
Proof.
  unfold signOff. apply reads_bind; [apply reads_timeNow|]. intros now.
  by apply reads_modifyConfig.
Qed.

Lemma quiet_signOff : quiet (signOff : M W ()).
Proof.
  unfold signOff. apply quiet_bind; [apply quiet_timeNow|]. intros now.
  apply quiet_modifyConfig.
Qed.

Lemma reads_printSummaryM : reads (printSummaryM : M W ()).
Proof.
  unfold printSummaryM. apply reads_bind; [apply reads_getConfig|]. intros c.
  destruct (printSummary c); [apply reads_emit|apply reads_ret].
Qed.

Lemma quiet_printSummaryM : quiet (printSummaryM : M W ()).
Proof.
  unfold printSummaryM. apply quiet_bind; [apply quiet_getConfig|]. intros c.
  destruct (printSummary c); [apply quiet_logLine|apply quiet_ret].
Qed.

Lemma frame_main_loop c0 ids i : frame c0 (main_loop verbosity workdir ids i).
Proof.
  revert i. induction ids as [|id ids IH]; intros i; [by intros st|].
  cbn [main_loop].
  apply frame_bind; [apply frame_exec|]. intros _.
  apply frame_bind; [apply reads_frame, reads_caseAt|]. intros shown.
  destruct (CanShow shown); [|apply IH].
  apply frame_bind; [apply reads_frame, reads_printTestStatus|]. intros _.
  apply IH.
Qed.

Lemma run_resolved (t : suitConfig) (w : W) :
  run verbosity workdir t w = after_getConf verbosity workdir (resolved workdir t w).
Proof. reflexivity. Qed.

Lemma frame_after_getConf c0 : frame c0 (after_getConf verbosity workdir).
Proof.
  unfold after_getConf.
  apply frame_bind; [apply reads_frame, reads_printHeader|]. intros _.
  apply frame_bind; [apply reads_frame, reads_getConfig|]. intros c.
  apply frame_bind.
  { destruct (_ >? _)%Z; [|apply reads_frame, reads_ret].
    apply frame_bind; [apply reads_frame, reads_emit|]. intros _.
    apply frame_bind; [apply frame_main_loop|]. intros _.
    apply reads_frame, reads_emit. }
  intros _. apply frame_bind; [apply reads_frame, reads_signOff|]. intros _.
  apply reads_frame, reads_printSummaryM.
Qed.

(** Whatever the run does and however it ends, the scenarios keep the
    configuration [getConf] gave them. *)
Lemma run_keeps (t : suitConfig) (w : W) :
  keeps (Cases (getConf workdir w t)) (Cases (conf (run verbosity workdir t w).2)).
Proof.
  rewrite run_resolved. apply frame_after_getConf. apply keeps_refl.
Qed.

(** C6. A scenario with an empty script body: [exec] on it calls no
    executor, reads no clock and changes nothing; the executor called on
    it (as a helper) launches nothing and changes nothing; and at the end
    of a whole run the scenario is the record [getConf] produced, with its
    status, output, result and duration as they were. *)
Theorem empty_script_noop (t : suitConfig) (w : W) (st : State W) (i : nat)
    (s : ScenarioItem) :
  Script s = ""%string →
  (Cases (conf st) !! i = Some s →
     exec workdir i st = (Ok (), record st [EvExec i]) ∧
     RunBash workdir i st = (Ok (""%string, None), record st [EvRunBash i])) ∧
  (Cases (getConf workdir w t) !! i = Some s →
     Cases (conf (run verbosity workdir t w).2) !! i = Some s).
Proof.
  intros Hs. split.
  - intros Hi. split;
      [by apply (exec_scriptless st i s)|by apply (RunBash_scriptless workdir st i s)].
  - intros Hi. by apply (proj2 (run_keeps t w)).
Qed.

End Frame.

Lemma empty_script_noop_witness :
  let lint := Toy.scenario "" "lint" "" 1 ["setup"%string] [] in
  let t := Toy.suite [lint; Toy.helper "setup" "exit 0" false] in
  let st := resolved "" t 0%nat in
  exec "" 0 st = (Ok (), record st [EvExec 0]) ∧
  Status <$> Cases (conf (run 3 "" t 0%nat).2) !! 0%nat = Some ""%string.
Proof.
  intros lint t st.
  destruct (empty_script_noop 3 "" t 0%nat st 0
              (set_resolved lint None "/home/ci" true true 1) eq_refl)
    as [Hexec Hrun].
  split.
  - apply Hexec. reflexivity.
  - rewrite Hrun; reflexivity.
Defined.

(** ** The resolver *)

Lemma getConf_loop_length cwd envs wdir cs :
  length (getConf_loop cwd envs wdir cs) = length cs.
Proof.
  revert envs wdir. induction cs as [|s cs IH]; intros envs wdir; [done|].
  cbn [getConf_loop].
  destruct (GlobalEnv s), (decide (Workdir s ≠ ""%string)); simpl; by rewrite IH.
Qed.

(** Position by position, [getConf] assigns the environment, the working
    directory, the two flags and the weight, and nothing else. *)
Lemma getConf_loop_item cwd envs wdir cs i s :
  cs !! i = Some s →
  ∃ env wd,
    getConf_loop cwd envs wdir cs !! i
    = Some (set_resolved s env wd (resolved_show s) (resolved_run s) (resolved_weight s)).
Proof.
  revert envs wdir i. induction cs as [|x cs IH]; intros envs wdir i Hi; [done|].
  cbn [getConf_loop].
  destruct i as [|i]; simpl in Hi.
  - simplify_eq.
    destruct (GlobalEnv s), (decide (Workdir s ≠ ""%string)); simpl; by eexists _, _.
  - destruct (GlobalEnv x), (decide (Workdir x ≠ ""%string)); simpl; by apply IH.
Qed.

(** The running environment after the scenarios of [cs]. *)
Lemma getConf_loop_env cwd envs wdir cs i s r :
  cs !! i = Some s →
  getConf_loop cwd envs wdir cs !! i = Some r →
  (∀ e, GlobalEnv s = Some e → GlobalEnv r = Some e) ∧
  (GlobalEnv s = None →
     (∀ j sj e, j < i → cs !! j = Some sj → GlobalEnv sj = Some e →
        (∀ k sk, j < k < i → cs !! k = Some sk → GlobalEnv sk = None) →
        GlobalEnv r = Some e) ∧
     ((∀ k sk, k < i → cs !! k = Some sk → GlobalEnv sk = None) →
        GlobalEnv r = envs)).
Proof.
  revert envs wdir i. induction cs as [|x cs IH]; intros envs wdir i Hi Hr; [done|].
  cbn [getConf_loop] in Hr.
  destruct i as [|i]; simpl in Hi.
  - simplify_eq.
    destruct (GlobalEnv s) as [e|] eqn:He, (decide (Workdir s ≠ ""%string));
      simpl in Hr; simplify_eq; simpl;
      (split; [intros e' He'; congruence|]);
      intros Hnone; try done; (split; [intros; lia|done]).
  - assert (Hrest : ∃ envs' wdir',
        getConf_loop cwd envs' wdir' cs !! i = Some r ∧
        envs' = match GlobalEnv x with Some e => Some e | None => envs end).
    { destruct (GlobalEnv x), (decide (Workdir x ≠ ""%string)); simpl in Hr;
        by eexists _, _. }
    destruct Hrest as (envs' & wdir' & Hr' & Henvs').
    destruct (IH envs' wdir' i Hi Hr') as [Hown Hinh].
    split; [exact Hown|]. intros Hnone.
    destruct (Hinh Hnone) as [Hnear Hfar]. split.
    + intros [|j] sj e Hlt Hj He Hgap; simpl in Hj.
      * simplify_eq. rewrite Hfar.
        -- by rewrite He.
        -- intros k sk Hk Hsk. apply (Hgap (S k)); [lia|done].
      * apply (Hnear j sj e); [lia|done|done|].
        intros k sk Hk Hsk. apply (Hgap (S k)); [lia|done].
    + intros Hall. rewrite Hfar.
      * subst envs'. by rewrite (Hall 0 x) by (lia || done).
      * intros k sk Hk Hsk. apply (Hall (S k)); [lia|done].
Qed.

(** The running working directory after the scenarios of [cs]. *)
Lemma getConf_loop_workdir cwd envs wdir cs i s r :
  (wdir = ""%string → cwd = ""%string) →
  cs !! i = Some s →
  getConf_loop cwd envs wdir cs !! i = Some r →
  (Workdir s ≠ ""%string → Workdir r = Workdir s) ∧
  (Workdir s = ""%string →
     (∀ j sj, j < i → cs !! j = Some sj → Workdir sj ≠ ""%string →
        (∀ k sk, j < k < i → cs !! k = Some sk → Workdir sk = ""%string) →
        Workdir r = Workdir sj) ∧
     ((∀ k sk, k < i → cs !! k = Some sk → Workdir sk = ""%string) →
        Workdir r = wdir)).
Proof.
  revert envs wdir i. induction cs as [|x cs IH]; intros envs wdir i Hw Hi Hr; [done|].
  cbn [getConf_loop] in Hr.
  destruct i as [|i]; simpl in Hi.
  - simplify_eq.
    destruct (GlobalEnv s), (decide (Workdir s ≠ ""%string)) as [Hset|Hunset];
      simpl in Hr; simplify_eq; simpl;
      (split; [done|]); intros Hempty; try done; (split; [intros; lia|done]).
  - assert (Hrest : ∃ envs' wdir',
        getConf_loop cwd envs' wdir' cs !! i = Some r ∧
        (wdir' = ""%string → cwd = ""%string) ∧
        wdir' = if decide (Workdir x ≠ ""%string) then Workdir x else wdir).
    { destruct (GlobalEnv x), (decide (Workdir x ≠ ""%string)) as [Hset|Hunset];
        simpl in Hr; eexists _, _; (split; [exact Hr|]);
        destruct (decide (wdir = ""%string)) as [Hwd|Hwd];
        try (split; [done|done]); split; try done;
        try (rewrite (Hw Hwd); by rewrite Hwd); intros; by subst. }
    destruct Hrest as (envs' & wdir' & Hr' & Hw' & Hwdir').
    destruct (IH envs' wdir' i Hw' Hi Hr') as [Hown Hinh].
    split; [exact Hown|]. intros Hempty.
    destruct (Hinh Hempty) as [Hnear Hfar]. split.
    + intros [|j] sj Hlt Hj Hset Hgap; simpl in Hj.
      * simplify_eq. rewrite Hfar.
        -- by destruct (decide (Workdir sj ≠ ""%string)).
        -- intros k sk Hk Hsk. apply (Hgap (S k)); [lia|done].
      * apply (Hnear j sj); [lia|done|done|].
        intros k sk Hk Hsk. apply (Hgap (S k)); [lia|done].
    + intros Hall. rewrite Hfar.
      * subst wdir'. destruct (decide (Workdir x ≠ ""%string)) as [Hset|]; [|done].
        exfalso. apply Hset. apply (Hall 0 x); [lia|done].
      * intros k sk Hk Hsk. apply (Hall (S k)); [lia|done].
Qed.

Lemma getConf_loop_names cwd envs wdir cs :
  Name <$> getConf_loop cwd envs wdir cs = Name <$> cs.
Proof.
  apply list_eq. intros i. rewrite !list_lookup_fmap.
  destruct (cs !! i) as [s|] eqn:Hi.
  - destruct (getConf_loop_item cwd envs wdir cs i s Hi) as (env & wd & ->). done.
  - rewrite (proj2 (lookup_ge_None _ _)); [done|].
    rewrite getConf_loop_length. by apply lookup_ge_None.
Qed.

Section Resolver.
Context {W : Type} `{!Runtime W}.
Variable workdir : string.

Lemma getConf_item (w : W) (t : suitConfig) (i : nat) (s : ScenarioItem) :
  Cases t !! i = Some s →
  ∃ env wd,
    Cases (getConf workdir w t) !! i
    = Some (set_resolved s env wd (resolved_show s) (resolved_run s) (resolved_weight s)).
Proof. intros Hi. by apply getConf_loop_item. Qed.

Lemma getConf_names (w : W) (t : suitConfig) :
  Name <$> Cases (getConf workdir w t) = Name <$> Cases t.
Proof. apply getConf_loop_names. Qed.

Lemma initial_wdir_empty (w : W) :
  initial_wdir workdir w = ""%string → os_Getwd w = ""%string.
Proof.
  unfold initial_wdir. destruct (decide (workdir ≠ ""%string)); [done|]. auto.
Qed.

(** C4. After [getConf], the environment of the scenario at position [i]
    is its own if it declared one, otherwise that of the nearest earlier
    scenario that declared one, otherwise the nil (empty) map; its working
    directory is its own if it is not empty, otherwise that of the nearest
    earlier scenario with a non-empty one, otherwise the directory the
    chain starts from: the [workdir] override if given, else the process's
    working directory. *)
Theorem getConf_inheritance (w : W) (t : suitConfig) (i : nat) (s r : ScenarioItem) :
  Cases t !! i = Some s →
  Cases (getConf workdir w t) !! i = Some r →
  ((∀ e, GlobalEnv s = Some e → GlobalEnv r = Some e) ∧
   (GlobalEnv s = None →
      (∀ j sj e, j < i → Cases t !! j = Some sj → GlobalEnv sj = Some e →
         (∀ k sk, j < k < i → Cases t !! k = Some sk → GlobalEnv sk = None) →
         GlobalEnv r = Some e) ∧
      ((∀ k sk, k < i → Cases t !! k = Some sk → GlobalEnv sk = None) →
         GlobalEnv r = None ∧ entries (GlobalEnv r) = ∅))) ∧
  ((Workdir s ≠ ""%string → Workdir r = Workdir s) ∧
   (Workdir s = ""%string →
      (∀ j sj, j < i → Cases t !! j = Some sj → Workdir sj ≠ ""%string →
         (∀ k sk, j < k < i → Cases t !! k = Some sk → Workdir sk = ""%string) →
         Workdir r = Workdir sj) ∧
      ((∀ k sk, k < i → Cases t !! k = Some sk → Workdir sk = ""%string) →
         Workdir r = if decide (workdir ≠ ""%string) then workdir else os_Getwd w))).
Proof.
  intros Hs Hr. unfold getConf in Hr. simpl in Hr. split.
  - destruct (getConf_loop_env _ _ _ _ _ _ _ Hs Hr) as [Hown Hinh].
    split; [exact Hown|]. intros Hnone.
    destruct (Hinh Hnone) as [Hnear Hfar]. split; [exact Hnear|].
    intros Hall. rewrite (Hfar Hall). done.
  - apply (getConf_loop_workdir _ _ _ _ _ _ _ (initial_wdir_empty w) Hs Hr).
Qed.
End Resolver.

Lemma getConf_inheritance_witness :
  (GlobalEnv <$> Cases (getConf "" 0%nat inheriting_suite) !! 1%nat)
    = Some (Some {[ "STAGE"%string := "one"%string ]}) ∧
  (Workdir <$> Cases (getConf "" 0%nat inheriting_suite) !! 1%nat)
    = Some "/srv/a"%string.
Proof.
  destruct (getConf_item "" 0%nat inheriting_suite 1
              (Toy.scenario "" "b" "exit 0" 1 [] []) eq_refl) as (env & wd & Hr).
  destruct (getConf_inheritance "" 0%nat inheriting_suite 1 _ _ eq_refl Hr)
    as [[_ Henv] [_ Hwd]].
  rewrite Hr. simpl.
  destruct (Henv eq_refl) as [Hnear _]. destruct (Hwd eq_refl) as [Hnear' _].
  split.
  - f_equal.
    refine (Hnear 0 _ _ _ eq_refl eq_refl _); [lia|]. intros k sk Hk. lia.
  - f_equal.
    refine (Hnear' 0 _ _ eq_refl _ _); [lia|simpl; discriminate|].
    intros k sk Hk. lia.
Defined.

(** ** Helper names that name no scenario *)

Section Unresolved.
Context {W : Type} `{!Runtime W}.
Variable workdir : string.

Lemma hooks_unresolved (names : list string) (st : State W) (name : string) :
  name ∈ names → getIdByName (conf st) name = (-1)%Z →
  ∃ st', forM_ names (runHook workdir) st = (Panic (-1), st').
Proof.
  revert st. induction names as [|n names IH]; intros st Hin Hm.
  - by apply elem_of_nil in Hin.
  - cbn [forM_].
    destruct (decide (getIdByName (conf st) n = (-1)%Z)) as [Hn|Hn].
    + exists st. by rewrite (bind_panic _ _ _ _ _ (runHook_unresolved workdir st n Hn)).
    + destruct (runHook_resolved workdir st n Hn) as (st1 & Hrun & Hk & _).
      rewrite (bind_ok _ _ _ _ _ Hrun).
      apply IH.
      * apply elem_of_cons in Hin as [->|Hin]; [done|exact Hin].
      * by rewrite <- (getIdByName_keeps _ _ name Hk).
Qed.

Lemma exec_unresolved (st : State W) (item : nat) (tc : ScenarioItem) (name : string) :
  Cases (conf st) !! item = Some tc → Script tc ≠ ""%string →
  name ∈ Before tc ++ After tc → getIdByName (conf st) name = (-1)%Z →
  ∃ st', exec workdir item st = (Panic (-1), st').
Proof.
  intros Hitem Hs Hin Hm. unfold exec.
  set (st0 := record st [EvExec item]).
  rewrite (bind_ok (emit (EvExec item)) _ st st0 () eq_refl).
  assert (Hc0 : caseAt item st0 = (Ok tc, st0))
    by (unfold caseAt; simpl; by rewrite Hitem).
  rewrite (bind_ok _ _ _ _ _ Hc0).
  destruct (decide (Script tc ≠ ""%string)) as [_|]; [|done].
  destruct (time_Now (world st0)) as [t1 w1] eqn:Ht1.
  set (st1 := {| conf := conf st0; world := w1; trace := trace st0 |}).
  assert (H1 : timeNow st0 = (Ok t1, st1)) by (unfold timeNow; by rewrite Ht1).
  rewrite (bind_ok _ _ _ _ _ H1).
  destruct (decide (Exists (λ n, getIdByName (conf st) n = (-1)%Z) (Before tc)))
    as [(n & Hn & Hnm)%Exists_exists|Hnone].
  { destruct (hooks_unresolved (Before tc) st1 n Hn Hnm) as (st' & Hp).
    exists st'. by rewrite (bind_panic _ _ _ _ _ Hp). }
  assert (Hbefore : ∀ n, n ∈ Before tc → getIdByName (conf st) n ≠ (-1)%Z).
  { intros n Hn Hnm. apply Hnone, Exists_exists. by exists n. }
  destruct (hooks_resolved workdir (Before tc) st1) as (st2 & Hb & Hk2 & _);
    [exact Hbefore|].
  rewrite (bind_ok _ _ _ _ _ Hb).
  change (conf st1) with (conf st) in Hk2.
  destruct (keeps_lookup_fwd _ _ item tc Hk2 Hitem) as (tc2 & Hitem2 & _).
  destruct (RunBash_did workdir st2 item tc2 Hitem2) as (r & st3 & Hr & Hk3 & _).
  rewrite (bind_ok _ _ _ _ _ Hr).
  assert (Hafter : name ∈ After tc).
  { apply elem_of_app in Hin as [Hin|Hin]; [|done].
    exfalso. by apply (Hbefore name Hin). }
  destruct (hooks_unresolved (After tc) st3 name Hafter) as (st' & Hp).
  { rewrite <- (getIdByName_keeps (conf st) _ name); [done|].
    by eapply keeps_trans. }
  exists st'. by rewrite (bind_panic _ _ _ _ _ Hp).
Qed.

(** C9. A before or after name that no scenario of the suite has is not
    rejected by [getConf]: the resolved suite still carries it, the lookup
    of the name yields -1, and [exec], called at any later point of the run
    on the scenario that lists it, panics with index -1 out of range. *)
Theorem unresolved_hook_panics (w : W) (t : suitConfig) (st : State W)
    (item : nat) (raw : ScenarioItem) (name : string) :
  Cases t !! item = Some raw → Script raw ≠ ""%string →
  name ∈ Before raw ++ After raw →
  name ∉ Name <$> Cases t →
  keeps (Cases (getConf workdir w t)) (Cases (conf st)) →
  (∃ r, Cases (getConf workdir w t) !! item = Some r ∧
        Before r = Before raw ∧ After r = After raw) ∧
  getIdByName (getConf workdir w t) name = (-1)%Z ∧
  getIdByName (conf st) name = (-1)%Z ∧
  ∃ st', exec workdir item st = (Panic (-1), st').
Proof.
  intros Hraw Hs Hin Hnone Hk.
  destruct (getConf_item workdir w t item raw Hraw) as (env & wd & Hr).
  assert (Hm : getIdByName (getConf workdir w t) name = (-1)%Z).
  { apply getIdByName_unresolved. by rewrite getConf_names. }
  assert (Hm' : getIdByName (conf st) name = (-1)%Z)
    by (by rewrite <- (getIdByName_keeps _ _ name Hk)).
  split_and!; [by eexists| done | done |].
  destruct (keeps_lookup_fwd _ _ _ _ Hk Hr) as (tc & Htc & Hst).
  apply static_fields in Hst as (_ & Hscript & Hb & Ha & _).
  simpl in Hscript, Hb, Ha.
  apply (exec_unresolved st item tc name); [done|congruence| |done].
  by rewrite <- Hb, <- Ha.
Qed.
End Unresolved.

Lemma unresolved_hook_panics_witness :
  getIdByName (getConf "" 0%nat dangling_suite) "prepare" = (-1)%Z ∧
  ∃ st', exec "" 0 (resolved "" dangling_suite 0%nat) = (Panic (-1), st').
Proof.
  destruct (unresolved_hook_panics "" 0%nat dangling_suite
              (resolved "" dangling_suite 0%nat) 0
              (Toy.scenario "" "deploy" "exit 0" 1 ["prepare"%string] [])
              "prepare"%string)
    as (_ & Hm & _ & Hexec).
  - reflexivity.
  - simpl. discriminate.
  - simpl. repeat constructor.
  - simpl. intros Hin. apply elem_of_cons in Hin as [Hin|Hin]; [discriminate|].
    by apply elem_of_nil in Hin.
  - apply keeps_refl.
  - split; [exact Hm|exact Hexec].
Defined.

(** The whole run of that suite ends in the panic. *)
Example run_dangling_panics :
  (run 0 "" dangling_suite 0%nat).1 = Panic (-1).
Proof. vm_compute. reflexivity. Qed.

(** ** Which scenarios the driver runs *)

Lemma getScenarioCount_cases (c c' : suitConfig) :
  Cases c = Cases c' → getScenarioCount c = getScenarioCount c'.
Proof. intros Heq. unfold getScenarioCount, getScenarioIds. by rewrite Heq. Qed.

Lemma getScenarioIds_cases (c c' : suitConfig) :
  Cases c = Cases c' → getScenarioIds c = getScenarioIds c'.
Proof. intros Heq. unfold getScenarioIds. by rewrite Heq. Qed.

Section Driver.
Context {W : Type} `{!Runtime W}.
Variable verbosity : Z.
Variable workdir : string.

Lemma tracks_bind {A B} (m : M W A) (f : A → M W B) ids1 ids2 :
  tracks m ids1 → (∀ a, tracks (f a) ids2) → tracks (m ≫= f) (ids1 ++ ids2).
Proof.
  intros Hm Hf st. destruct (Hm st) as (n1 & Ht1 & Hp1 & Hok1).
  unfold mbind, M_bind. destruct (m st) as [[a|i] st1]; simpl in *.
  - destruct (Hf a st1) as (n2 & Ht2 & Hp2 & Hok2).
    exists (n1 ++ n2). rewrite Ht2, Ht1, app_assoc, execs_app, (Hok1 I).
    split_and!; [done|by apply prefix_app|].
    intros Hok. by rewrite (Hok2 Hok).
  - exists n1. split_and!; [done|by apply prefix_app_r|done].
Qed.

Lemma quiet_tracks {A} (m : M W A) : quiet m → tracks m [].
Proof.
  intros Hq st. destruct (Hq st) as (new & Ht & He).
  exists new. by rewrite He.
Qed.

Lemma tracks_then_quiet {A B} (m : M W A) (f : A → M W B) ids :
  tracks m ids → (∀ a, quiet (f a)) → tracks (m ≫= f) ids.
Proof.
  intros Hm Hf. rewrite <- (app_nil_r ids).
  apply tracks_bind; [done|]. intros a. apply quiet_tracks, Hf.
Qed.

Lemma quiet_then_tracks {A B} (m : M W A) (f : A → M W B) ids :
  quiet m → (∀ a, tracks (f a) ids) → tracks (m ≫= f) ids.
Proof.
  intros Hm Hf. change ids with ([] ++ ids).
  apply tracks_bind; [by apply quiet_tracks|done].
Qed.

Lemma tracks_exec id : tracks (exec workdir id) [id].
Proof.
  intros st. destruct (exec_trace workdir id st) as (new & Ht & He).
  exists (EvExec id :: new). split; [done|].
  change (execs (EvExec id :: new)) with (id :: execs new). by rewrite He.
Qed.

Lemma tracks_main_loop ids i : tracks (main_loop verbosity workdir ids i) ids.
Proof.
  revert i. induction ids as [|id ids IH]; intros i.
  - apply quiet_tracks, quiet_ret.
  - cbn [main_loop]. change (id :: ids) with ([id] ++ ids).
    apply tracks_bind; [apply tracks_exec|]. intros _.
    apply quiet_then_tracks; [apply quiet_caseAt|]. intros shown.
    destruct (CanShow shown); [|apply IH].
    apply quiet_then_tracks; [apply quiet_printTestStatus|]. intros _.
    apply IH.
Qed.

Lemma tracks_after_getConf (st : State W) :
  ∃ new,
    trace (after_getConf verbosity workdir st).2 = trace st ++ new ∧
    execs new `prefix_of` executed (conf st) ∧
    (succeeded (after_getConf verbosity workdir st).1 →
     execs new = executed (conf st)).
Proof.
  unfold after_getConf.
  pose proof (reads_printHeader st) as Hreads.
  destruct (quiet_printHeader st) as (n1 & Ht1 & He1).
  destruct (printHeader st) as [[[]|i] st1] eqn:Hheader; simpl in Hreads, Ht1.
  - rewrite (bind_ok _ _ _ _ _ Hheader).
    rewrite (bind_ok getConfig _ st1 st1 (conf st1) eq_refl).
    assert (Hrest : tracks
      ((if (getScenarioCount (conf st1) >? 0)%Z then
          logLine LRule;;
          main_loop verbosity workdir (getScenarioIds (conf st1)) 1;;
          logLine LRule
        else mret ());; signOff;; printSummaryM)
      (executed (conf st))).
    { unfold executed.
      rewrite <- (getScenarioCount_cases _ _ Hreads),
              <- (getScenarioIds_cases _ _ Hreads).
      assert (Htail : ∀ u : (), quiet (signOff;; printSummaryM : M W ())).
      { intros _. apply quiet_bind; [apply quiet_signOff|]. intros _.
        apply quiet_printSummaryM. }
      destruct (getScenarioCount (conf st1) >? 0)%Z.
      - apply tracks_then_quiet; [|exact Htail].
        apply quiet_then_tracks; [apply quiet_logLine|]. intros _.
        apply tracks_then_quiet; [apply tracks_main_loop|]. intros _.
        apply quiet_logLine.
      - apply quiet_tracks.
        apply quiet_bind; [apply quiet_ret|]. exact Htail. }
    destruct (Hrest st1) as (n2 & Ht2 & Hp2 & Hok2).
    exists (n1 ++ n2). rewrite Ht2, Ht1, app_assoc, execs_app, He1.
    split_and!; done.
  - rewrite (bind_panic _ _ _ _ _ Hheader).
    exists n1. rewrite He1. split_and!; [done|apply prefix_nil|done].
Qed.

(** What [getConf] makes of the flags of a scenario that [yaml.Unmarshal]
    left with [canShow] and [canRun] unset. *)
Lemma eligible_resolved (s : ScenarioItem) env wd :
  canShow s = false → canRun s = false →
  eligible (set_resolved s env wd (resolved_show s) (resolved_run s) (resolved_weight s))
    = true
  ↔ Skip s = false ∧ (Case s ≠ ""%string ∨ Name s = ""%string).
Proof.
  intros Hshow Hrun. unfold eligible, resolved_show, resolved_run. simpl.
  rewrite Hshow, Hrun.
  destruct (Skip s), (decide (Case s ≠ ""%string)), (decide (Name s = ""%string));
    simpl; naive_solver.
Qed.

(** C8, as the code has it. With the unexported flags unset by decoding,
    the ids [getScenarioIds] selects after [getConf] are exactly the
    positions of the scenarios with [skip] false and a non-empty label or
    an empty name, in strictly ascending order. [main] enters [exec] for
    these ids, each once, in that order (for a prefix of them when the run
    panics), provided [getScenarioCount] is positive, that is when a
    selected scenario is displayable; otherwise it enters [exec] for none
    of them. *)
Theorem runner_selection (t : suitConfig) (w : W) :
  (∀ s, s ∈ Cases t → canShow s = false ∧ canRun s = false) →
  let c := getConf workdir w t in
  let r := run verbosity workdir t w in
  (∀ k, k ∈ getScenarioIds c ↔
        ∃ s, Cases t !! k = Some s ∧ Skip s = false ∧
             (Case s ≠ ""%string ∨ Name s = ""%string)) ∧
  ascending (getScenarioIds c) ∧
  ((getScenarioCount c > 0)%Z →
     execs (trace r.2) `prefix_of` getScenarioIds c ∧
     (r.1 = Ok () → execs (trace r.2) = getScenarioIds c)) ∧
  ((getScenarioCount c ≤ 0)%Z → execs (trace r.2) = []).
Proof.
  intros Hraw c r. split_and!.
  - intros k. rewrite getScenarioIds_elem. split.
    + intros (x & Hx & He).
      destruct (Cases t !! k) as [s|] eqn:Hs.
      * destruct (getConf_item workdir w t k s Hs) as (env & wd & Hr).
        fold c in Hr. rewrite Hr in Hx. simplify_eq.
        destruct (Hraw s) as [Hshow Hrun]; [by eapply list_elem_of_lookup_2|].
        exists s. split; [done|]. by apply (eligible_resolved s env wd).
      * apply lookup_ge_None in Hs. apply lookup_lt_Some in Hx.
        unfold c, getConf in Hx. simpl in Hx.
        rewrite getConf_loop_length in Hx. lia.
    + intros (s & Hs & Hcond).
      destruct (getConf_item workdir w t k s Hs) as (env & wd & Hr).
      destruct (Hraw s) as [Hshow Hrun]; [by eapply list_elem_of_lookup_2|].
      eexists. split; [exact Hr|]. by apply eligible_resolved.
  - apply getScenarioIds_from_ascending.
  - intros Hpos.
    destruct (tracks_after_getConf (resolved workdir t w)) as (new & Ht & Hp & Hok).
    unfold r. rewrite run_resolved, Ht. simpl.
    unfold executed in Hp, Hok. simpl in Hp, Hok. fold c in Hp, Hok.
    destruct (getScenarioCount c >? 0)%Z eqn:Hgt; [|lia].
    split; [done|]. intros Hres. apply Hok. by rewrite Hres.
  - intros Hzero.
    destruct (tracks_after_getConf (resolved workdir t w)) as (new & Ht & Hp & _).
    unfold r. rewrite run_resolved, Ht. simpl.
    unfold executed in Hp. simpl in Hp. fold c in Hp.
    destruct (getScenarioCount c >? 0)%Z eqn:Hgt; [lia|].
    by apply prefix_nil_inv in Hp.
Qed.
End Driver.

(** C8 as stated fails: the scenario is selected ([skip] is false and it has
    no name), yet the run never enters [exec] for it and launches nothing. *)
Lemma selected_but_not_executed :
  let c := getConf "" 0%nat anonymous_suite in
  let r := run 0 "" anonymous_suite 0%nat in
  getScenarioIds c = [0] ∧
  (Skip <$> Cases c) = [false] ∧ (Name <$> Cases c) = [""%string] ∧
  r.1 = Ok () ∧ execs (trace r.2) = [] ∧ spawns (trace r.2) = [] ∧
  (Status <$> Cases (conf r.2)) = [""%string].
Proof. vm_compute. done. Qed.

Lemma runner_selection_witness :
  let t := Toy.suite [Toy.scenario "" "first" "exit 0" 1 [] [];
                      Toy.helper "setup" "exit 0" false;
                      Toy.scenario "" "" "exit 0" 0 [] []] in
  getScenarioIds (getConf "" 0%nat t) = [0; 2] ∧
  execs (trace (run 0 "" t 0%nat).2) = [0; 2].
Proof.
  intros t.
  destruct (runner_selection 0 "" t 0%nat) as (_ & _ & Hpos & _).
  - intros s Hs. 
    repeat (apply elem_of_cons in Hs as [->|Hs]; [done|]).
    by apply elem_of_nil in Hs.
  - destruct Hpos as [_ Hall]; [vm_compute; reflexivity|].
    split; [reflexivity|]. rewrite Hall; reflexivity.
Defined.

(** ** The environment and the directory of the subprocess *)

Lemma entry_split_env_entry (k v : string) :
  no_equals k = true → entry_split (env_entry (k, v)) = Some (k, v).
Proof.
  unfold env_entry. simpl. induction k as [|c k IH]; intros Hk.
  - reflexivity.
  - simpl in Hk |- *. destruct (decide (c = "="%char)); [done|].
    by rewrite (IH Hk).
Qed.

Lemma lookupEnv_app (k : string) (a b : list string) :
  lookupEnv k (a ++ b)
  = match lookupEnv k b with
    | Some v => Some v
    | None => lookupEnv k a
    end.
Proof.
  induction a as [|e a IH]; simpl.
  - by destruct (lookupEnv k b).
  - rewrite IH. by destruct (lookupEnv k b), (lookupEnv k a).
Qed.

Lemma lookupEnv_entries (k : string) (l : list (string * string)) :
  NoDup l.*1 → (∀ kv, kv ∈ l → no_equals kv.1 = true) →
  lookupEnv k (env_entry <$> l) = (list_to_map l : gmap string string) !! k.
Proof.
  induction l as [|[k0 v0] l IH]; intros Hnd Hkeys.
  - symmetry. apply (lookup_empty (M:=gmap string)).
  - rewrite fmap_cons in Hnd. apply NoDup_cons in Hnd as [Hfresh Hnd].
    rewrite fmap_cons. cbn [lookupEnv list_to_map foldr].
    rewrite IH; [|done|intros kv Hkv; apply Hkeys; by right].
    rewrite entry_split_env_entry by (apply (Hkeys (k0, v0)); by left).
    fold (list_to_map (M:=gmap string string) l).
    destruct (decide (k0 = k)) as [->|Hne].
    + rewrite lookup_insert_eq.
      by rewrite (not_elem_of_list_to_map_1 _ _ Hfresh).
    + rewrite lookup_insert_ne by done.
      by destruct (list_to_map l !! k).
Qed.

Section Subprocess.
Context {W : Type} `{!Runtime W}.
Variable workdir : string.

Lemma script_Env_lookup (s : ScenarioItem) (w : W) (k : string) :
  (∀ k, is_Some (entries (GlobalEnv s) !! k) → no_equals k = true) →
  lookupEnv k (script_Env s w)
  = match entries (GlobalEnv s) !! k with
    | Some v => Some v
    | None => lookupEnv k (os_Environ w)
    end.
Proof.
  intros Hkeys. unfold script_Env. rewrite lookupEnv_app.
  pose proof (map_range_perm (entries (GlobalEnv s)) w) as Hperm.
  assert (Hnd : NoDup (map_range (entries (GlobalEnv s)) w).*1)
    by (rewrite Hperm; apply NoDup_fst_map_to_list).
  rewrite lookupEnv_entries.
  - by rewrite (list_to_map_proper _ _ Hnd Hperm), list_to_map_to_list.
  - exact Hnd.
  - intros [k' v'] Hin. apply Hkeys. simpl.
    rewrite Hperm in Hin. apply elem_of_map_to_list in Hin. by rewrite Hin.
Qed.

(** C5. The subprocess [RunBash] launches for a scenario with a script
    gets [os.Environ()] followed by one [key=value] entry for every
    variable of the scenario's resolved environment, so no process
    variable is dropped; read the way os/exec reads it, a name bound by
    the scenario has the scenario's value and any other name has the
    process's value. Names are taken to be free of [=]. *)
Theorem subprocess_env (st : State W) (id : nat) (s : ScenarioItem) :
  Cases (conf st) !! id = Some s → Script s ≠ ""%string →
  (∀ k, is_Some (entries (GlobalEnv s) !! k) → no_equals k = true) →
  ∃ cmd,
    trace (RunBash workdir id st).2 = trace st ++ [EvRunBash id; EvSpawn id cmd] ∧
    (∃ order, order ≡ₚ map_to_list (entries (GlobalEnv s)) ∧
              cmd_Env cmd = os_Environ (world st) ++ (env_entry <$> order)) ∧
    ∀ k, lookupEnv k (cmd_Env cmd)
         = match entries (GlobalEnv s) !! k with
           | Some v => Some v
           | None => lookupEnv k (os_Environ (world st))
           end.
Proof.
  intros Hid Hs Hkeys.
  exists (script_Cmd workdir s (world st)).
  rewrite (RunBash_scripted workdir st id s Hid Hs). simpl.
  split_and!; [done| |].
  - exists (map_range (entries (GlobalEnv s)) (world st)).
    split; [apply map_range_perm|done].
  - intros k. by apply script_Env_lookup.
Qed.

(** The directory of the subprocess is the package-level [workdir]. *)
Lemma subprocess_dir (st : State W) (id : nat) (s : ScenarioItem) :
  Cases (conf st) !! id = Some s → Script s ≠ ""%string →
  ∃ cmd,
    trace (RunBash workdir id st).2 = trace st ++ [EvRunBash id; EvSpawn id cmd] ∧
    cmd_Dir cmd = workdir.
Proof.
  intros Hid Hs. exists (script_Cmd workdir s (world st)).
  by rewrite (RunBash_scripted workdir st id s Hid Hs).
Qed.
End Subprocess.

Lemma subprocess_env_witness :
  ∃ cmd,
    trace (RunBash "" 0 (resolved "" env_suite 0%nat)).2
      = [EvRunBash 0; EvSpawn 0 cmd] ∧
    lookupEnv "LANG" (cmd_Env cmd) = Some "en"%string ∧
    lookupEnv "STAGE" (cmd_Env cmd) = Some "one"%string ∧
    lookupEnv "PATH" (cmd_Env cmd) = Some "/bin"%string.
Proof.
  destruct (subprocess_env "" (resolved "" env_suite 0%nat) 0
              (set_resolved (Toy.scenario "" "env" "exit 0" 1 [] [])
                 (Some {[ "LANG"%string := "en"%string; "STAGE"%string := "one"%string ]})
                 "/home/ci" true true 1))
    as (cmd & Ht & _ & Hlook).
  - reflexivity.
  - simpl. discriminate.
  - simpl. intros k [v Hk].
    apply lookup_insert_Some in Hk as [[<- _]|[_ Hk]]; [reflexivity|].
    apply lookup_singleton_Some in Hk as [<- _]. reflexivity.
  - exists cmd. split; [exact Ht|].
    rewrite !Hlook. split_and!; reflexivity.
Defined.

(** C2 fails on the code. The scenario's resolved working directory is
    [/srv/app], and the subprocess is launched with the empty [Dir] of the
    unset [workdir] override, that is in the process's own directory. *)
Lemma subprocess_dir_ignores_scenario :
  let c := getConf "" 0%nat located_suite in
  let r := run 0 "" located_suite 0%nat in
  (Workdir <$> Cases c) = ["/srv/app"%string] ∧
  (omap (λ e, match e with EvSpawn i cmd => Some (i, cmd_Dir cmd) | _ => None end)
     (trace r.2)) = [(0, ""%string)].
Proof. vm_compute. done. Qed.

(** * Further properties *)

(** ** [print] without a terminal *)

Lemma has_m_false_clean (s : string) : has_m s = false → clean s = true.
Proof.
  induction s as [|c s IH]; [done|]. simpl.
  destruct (decide (c = "m"%char)); [done|]. intros Hm.
  rewrite (IH Hm), Hm. by destruct (decide (c = ESC)).
Qed.

Lemma no_esc_clean (s : string) : no_esc s = true → clean s = true.
Proof.
  induction s as [|c s IH]; [done|]. simpl.
  destruct (decide (c = ESC)); [done|]. intros Hs. by rewrite (IH Hs).
Qed.

Lemma clean_stripEscapes (s : string) :
  clean s = true → stripEscapes_from false s = s.
Proof.
  induction s as [|c s IH]; [done|]. simpl.
  destruct (decide (c = ESC)) as [->|Hc]; simpl.
  - intros [Hm _]%andb_true_iff. apply negb_true_iff in Hm. by rewrite Hm.
  - intros Hs. by rewrite (IH Hs).
Qed.

Lemma stripEscapes_from_clean (inside : bool) (s : string) :
  clean (stripEscapes_from inside s) = true.
Proof.
  revert inside. induction s as [|c s IH]; intros inside; [done|]. simpl.
  destruct inside.
  - destruct (decide (c = "m"%char)); apply IH.
  - destruct (decide (c = ESC)) as [->|Hc].
    + destruct (has_m s) eqn:Hm; [apply IH|]. simpl.
      destruct (decide (ESC = ESC)); [|done].
      by rewrite Hm, (has_m_false_clean s Hm).
    + simpl. destruct (decide (c = ESC)); [done|]. apply IH.
Qed.

(** X1. What [stripEscapes] returns has no escape sequence left: no
    [\033] in it has an [m] after it, and stripping it again changes
    nothing. *)
Theorem stripEscapes_idempotent (msg : string) :
  clean (stripEscapes msg) = true ∧
  stripEscapes (stripEscapes msg) = stripEscapes msg.
Proof.
  assert (Hc : clean (stripEscapes msg) = true)
    by apply stripEscapes_from_clean.
  split; [exact Hc|]. by apply clean_stripEscapes.
Qed.

Lemma stripEscapes_app (a b : string) :
  no_esc a = true →
  stripEscapes_from false (a +:+ b) = (a +:+ stripEscapes_from false b)%string.
Proof.
  induction a as [|c a IH]; [done|]. simpl.
  destruct (decide (c = ESC)); [done|]. intros Ha. by rewrite (IH Ha).
Qed.

Lemma stripEscapes_inside (code rest : string) :
  has_m code = false →
  stripEscapes_from true (code +:+ String "m"%char rest)
  = stripEscapes_from false rest.
Proof.
  induction code as [|c code IH]; simpl.
  - intros _. by destruct (decide ("m"%char = "m"%char)).
  - destruct (decide (c = "m"%char)); [done|]. apply IH.
Qed.

Lemma has_m_app (code rest : string) :
  has_m (code +:+ String "m"%char rest) = true.
Proof.
  induction code as [|c code IH]; simpl.
  - by destruct (decide ("m"%char = "m"%char)).
  - by destruct (decide (c = "m"%char)).
Qed.

Lemma append_code_m (code rest : string) :
  ((code +:+ "m") +:+ rest)%string = (code +:+ String "m"%char rest)%string.
Proof.
  induction code as [|c code IH]; [done|].
  change (String c ((code +:+ "m") +:+ rest) = String c (code +:+ String "m" rest))%string.
  by rewrite IH.
Qed.

Lemma stripEscapes_escape (code rest : string) :
  has_m code = false →
  stripEscapes_from false (escape code +:+ rest) = stripEscapes_from false rest.
Proof.
  intros Hcode. unfold escape.
  change (String ESC (code +:+ "m") +:+ rest)%string
    with (String ESC ((code +:+ "m") +:+ rest)%string).
  rewrite append_code_m. cbn [stripEscapes_from].
  destruct (decide (ESC = ESC)); [|done].
  by rewrite has_m_app, stripEscapes_inside.
Qed.

Lemma append_empty_r (s : string) : (s +:+ "")%string = s.
Proof.
  induction s as [|c s IH]; [done|].
  change (String c (s +:+ "") = String c s)%string. by rewrite IH.
Qed.

(** X2. A text without [\033] put between two escape sequences (whose
    codes have no [m], as color codes do) comes back bare. *)
Theorem stripEscapes_colored (c1 c2 body : string) :
  no_esc body = true → has_m c1 = false → has_m c2 = false →
  stripEscapes (escape c1 +:+ body +:+ escape c2) = body.
Proof.
  intros Hbody H1 H2. unfold stripEscapes.
  rewrite (stripEscapes_escape c1 _ H1).
  rewrite (stripEscapes_app body _ Hbody).
  rewrite <- (append_empty_r (escape c2)).
  rewrite (stripEscapes_escape c2 "" H2). simpl. apply append_empty_r.
Qed.

Lemma stripEscapes_colored_witness :
  stripEscapes (escape "[32" +:+ "1 (of 1) tests passed" +:+ escape "[0")
  = "1 (of 1) tests passed"%string.
Proof.
  apply (stripEscapes_colored "[32" "[0" "1 (of 1) tests passed");
    reflexivity.
Defined.

Lemma replaceGlyph_other (last a : ascii) (new r : string) :
  a ≠ "226"%char →
  replaceGlyph last new (String a r) = String a (replaceGlyph last new r).
Proof.
  intros Ha. destruct r as [|b [|c r]]; simpl; try done.
  destruct (decide _) as [[? _]|]; done.
Qed.

Lemma replaceGlyph_none (last : ascii) (new s : string) :
  no_glyph_lead s = true → replaceGlyph last new s = s.
Proof.
  induction s as [|a s IH]; [done|]. intros Hs. simpl in Hs.
  destruct (decide (a = "226"%char)) as [|Ha]; [done|].
  by rewrite (replaceGlyph_other _ _ _ _ Ha), (IH Hs).
Qed.

Lemma no_glyph_lead_app (a b : string) :
  no_glyph_lead a = true → no_glyph_lead b = true →
  no_glyph_lead (a +:+ b) = true.
Proof.
  induction a as [|c a IH]; [done|]. simpl.
  destruct (decide (c = "226"%char)); [done|]. apply IH.
Qed.

Lemma stripEscapes_from_wrapped (c1 c2 body : string) :
  no_esc body = true → has_m c1 = false → has_m c2 = false →
  stripEscapes_from false (escape c1 +:+ body +:+ (escape c2 +:+ "")) = body.
Proof.
  intros Hbody H1 H2.
  rewrite (stripEscapes_escape c1 _ H1), (stripEscapes_app body _ Hbody).
  rewrite (stripEscapes_escape c2 "" H2).
  change (stripEscapes_from false "") with ""%string. apply append_empty_r.
Qed.

(** X3. Without a terminal ([TERM] empty or unset), a status line in its
    color becomes the plain line with the mark spelled out: [success] for
    the check mark, [FAILURE] for the cross; with a terminal the message
    is logged as it is. The text of the line is taken to hold no [\033]
    and no other glyph. *)
Theorem print_text_status (term c1 c2 text msg : string) :
  no_esc text = true → no_glyph_lead text = true →
  has_m c1 = false → has_m c2 = false →
  print_text "" (escape c1 +:+ (check_mark +:+ text) +:+ escape c2)
    = ("success" +:+ text)%string ∧
  print_text "" (escape c1 +:+ (cross_mark +:+ text) +:+ escape c2)
    = ("FAILURE" +:+ text)%string ∧
  (term ≠ ""%string → print_text term msg = msg).
Proof.
  intros Hesc Hlead H1 H2. unfold print_text. split_and!.
  - destruct (decide (""%string = ""%string)); [|done].
    unfold stripEscapes. rewrite <- (append_empty_r (escape c2)).
    rewrite (stripEscapes_from_wrapped c1 c2 (check_mark +:+ text)); [|exact Hesc|done|done].
    change (replaceGlyph "147" "success" (check_mark +:+ text))
      with ("success" +:+ replaceGlyph "147" "success" text)%string.
    rewrite (replaceGlyph_none _ _ text Hlead).
    apply replaceGlyph_none. by apply (no_glyph_lead_app "success").
  - destruct (decide (""%string = ""%string)); [|done].
    unfold stripEscapes. rewrite <- (append_empty_r (escape c2)).
    rewrite (stripEscapes_from_wrapped c1 c2 (cross_mark +:+ text)); [|exact Hesc|done|done].
    change (replaceGlyph "147" "success" (cross_mark +:+ text))
      with (String "226" (replaceGlyph "147" "success"
                            (String "156" (String "151" text)))).
    rewrite (replaceGlyph_other "147" "156") by discriminate.
    rewrite (replaceGlyph_other "147" "151") by discriminate.
    rewrite (replaceGlyph_none _ _ text Hlead).
    change (replaceGlyph "151" "FAILURE" (String "226" (String "156" (String "151" text))))
      with ("FAILURE" +:+ replaceGlyph "151" "FAILURE" text)%string.
    by rewrite (replaceGlyph_none _ _ text Hlead).
  - intros Hterm. by destruct (decide (term = ""%string)).
Qed.

Lemma print_text_status_witness :
  print_text "" (escape "[32" +:+ (check_mark +:+ "  1  build, 1ms") +:+ escape "[0")
    = "success  1  build, 1ms"%string ∧
  print_text "xterm" (escape "[32" +:+ check_mark) = (escape "[32" +:+ check_mark)%string.
Proof.
  destruct (print_text_status "xterm" "[32" "[0" "  1  build, 1ms"
              (escape "[32" +:+ check_mark) eq_refl eq_refl eq_refl eq_refl)
    as (Hok & _ & Hterm).
  split; [exact Hok|]. apply Hterm. discriminate.
Defined.

(** ** Name lookup *)

(** X4. [getIdByName] returns the position [k] exactly when the scenario
    at [k] has the name and no earlier scenario has it: of several
    scenarios with one name only the first can be reached by that name. *)
Theorem getIdByName_first_match (c : suitConfig) (name : string) (k : nat) :
  getIdByName c name = Z.of_nat k ↔
  ∃ s, Cases c !! k = Some s ∧ Name s = name ∧
       ∀ k' s', k' < k → Cases c !! k' = Some s' → Name s' ≠ name.
Proof.
  destruct (getIdByName_spec c name)
    as [[Hm Hnone]|(k0 & s0 & Hr & Hk0 & Hs0 & Hfirst)].
  - split; [lia|]. intros (s & Hk & Hs & _). exfalso. apply Hnone.
    apply list_elem_of_fmap. exists s. split; [done|].
    by eapply list_elem_of_lookup_2.
  - rewrite Hr. split.
    + intros Heq. assert (k0 = k) as <- by lia. by exists s0.
    + intros (s & Hk & Hs & Hmin). f_equal.
      destruct (Nat.lt_trichotomy k0 k) as [Hlt|[Heq|Hgt]]; [|done|].
      * by destruct (Hmin k0 s0 Hlt Hk0).
      * by destruct (Hfirst k s Hgt Hk).
Qed.

(** ** More on the resolver *)

Lemma set_resolved_back (s : ScenarioItem) env wd show run weight :
  set_resolved (set_resolved s env wd show run weight)
    (GlobalEnv s) (Workdir s) (canShow s) (canRun s) (Weight s) = s.
Proof. by destruct s. Qed.

Section ResolverMore.
Context {W : Type} `{!Runtime W}.
Variable workdir : string.

(** X5. [getConf] keeps the number and the order of the scenarios and
    assigns only the environment, the working directory, the two flags and
    the weight: with these five put back, a resolved scenario is the
    decoded one. *)
Theorem getConf_assigns_only (w : W) (t : suitConfig) :
  length (Cases (getConf workdir w t)) = length (Cases t) ∧
  suit_Name (getConf workdir w t) = suit_Name t ∧
  ∀ i s, Cases t !! i = Some s →
    ∃ r, Cases (getConf workdir w t) !! i = Some r ∧
         set_resolved r (GlobalEnv s) (Workdir s) (canShow s) (canRun s) (Weight s) = s.
Proof.
  split_and!.
  - apply getConf_loop_length.
  - done.
  - intros i s Hs.
    destruct (getConf_item workdir w t i s Hs) as (env & wd & Hr).
    eexists. split; [exact Hr|]. apply set_resolved_back.
Qed.

Lemma getConf_lookup_inv (w : W) (t : suitConfig) (i : nat) (r : ScenarioItem) :
  Cases (getConf workdir w t) !! i = Some r →
  ∃ s env wd, Cases t !! i = Some s ∧
    r = set_resolved s env wd (resolved_show s) (resolved_run s) (resolved_weight s).
Proof.
  intros Hr. destruct (Cases t !! i) as [s|] eqn:Hs.
  - destruct (getConf_item workdir w t i s Hs) as (env & wd & Hr').
    rewrite Hr' in Hr. simplify_eq. by eexists _, _, _.
  - apply lookup_ge_None in Hs. apply lookup_lt_Some in Hr.
    unfold getConf in Hr. simpl in Hr. rewrite getConf_loop_length in Hr. lia.
Qed.

(** X6. After [getConf] a displayable scenario never has weight 0: a
    decoded weight of 0 became 1 and any other weight is kept; the weight
    of a scenario that is not displayable is the decoded one; and a
    scenario decoded with its flag unset is displayable exactly when its
    label is not empty. *)
Theorem getConf_weight (w : W) (t : suitConfig) (i : nat) (s r : ScenarioItem) :
  Cases t !! i = Some s →
  Cases (getConf workdir w t) !! i = Some r →
  (canShow r = true → Weight r ≠ 0%Z ∧ (Weight s = 0%Z → Weight r = 1%Z)) ∧
  (Weight s ≠ 0%Z → Weight r = Weight s) ∧
  (canShow r = false → Weight r = Weight s) ∧
  (canShow s = false → (canShow r = true ↔ Case s ≠ ""%string)).
Proof.
  intros Hs Hr.
  destruct (getConf_item workdir w t i s Hs) as (env & wd & Hr').
  rewrite Hr' in Hr. simplify_eq. simpl.
  unfold resolved_weight, resolved_show.
  destruct (decide (Case s ≠ ""%string)), (decide (Weight s = 0%Z)),
    (canShow s) eqn:Hshow; simpl; split_and!; try done; try lia;
    intros; try done; try lia; naive_solver.
Qed.

End ResolverMore.

Lemma getConf_weight_witness :
  let s := Toy.scenario "" "lint" "exit 0" 0 [] [] in
  let r := set_resolved s None "/home/ci" true true 1 in
  Cases (getConf "" 0%nat (Toy.suite [s])) !! 0%nat = Some r ∧ Weight r ≠ 0%Z.
Proof.
  intros s r. split; [reflexivity|].
  destruct (getConf_weight "" 0%nat (Toy.suite [s]) 0 s r) as [Hshown _];
    [reflexivity|reflexivity|].
  apply Hshown. reflexivity.
Defined.

Lemma weights_at_least (l : list ScenarioItem) :
  Forall (λ r, (1 ≤ Weight r)%Z) l → (Z.of_nat (length l) ≤ weights l)%Z.
Proof.
  induction 1 as [|r l Hr _ IH]; [done|].
  rewrite weights_cons. simpl length. lia.
Qed.

Lemma getConf_loop_idempotent cwd envs wdir cs :
  getConf_loop cwd envs wdir (getConf_loop cwd envs wdir cs)
  = getConf_loop cwd envs wdir cs.
Proof.
  revert envs wdir. induction cs as [|s cs IH]; intros envs wdir; [done|].
  cbn [getConf_loop].
  destruct (GlobalEnv s) as [e|] eqn:He;
    destruct (decide (Workdir s ≠ ""%string)) as [Hwd|Hwd];
    cbn [getConf_loop]; simpl.
  - destruct (decide (Workdir s ≠ ""%string)); [|done].
    rewrite IH. f_equal. unfold set_resolved. simpl.
    destruct (decide (Case s ≠ ""%string)), (decide (Name s = ""%string)),
      (canShow s), (decide (Weight s = 0%Z)); simpl;
      repeat case_decide; try done; try lia.
  - destruct (decide (wdir ≠ ""%string)) as [Hw|Hw].
    + destruct (decide (wdir = ""%string)); [done|].
      rewrite IH. f_equal. unfold set_resolved. simpl.
      destruct (decide (Case s ≠ ""%string)), (decide (Name s = ""%string)),
        (canShow s), (decide (Weight s = 0%Z)); simpl;
        repeat case_decide; try done; try lia.
    + destruct (decide (wdir = ""%string)) as [Hw'|]; [|by destruct Hw].
      rewrite IH. f_equal. unfold set_resolved. simpl.
      destruct (decide (Case s ≠ ""%string)), (decide (Name s = ""%string)),
        (canShow s), (decide (Weight s = 0%Z)); simpl;
        repeat case_decide; try done; try lia.
  - destruct (decide (Workdir s ≠ ""%string)); [|done].
    destruct envs as [e|]; simpl; rewrite IH; f_equal; unfold set_resolved; simpl;
      destruct (decide (Case s ≠ ""%string)), (decide (Name s = ""%string)),
        (canShow s), (decide (Weight s = 0%Z)); simpl;
        repeat case_decide; try done; try lia.
  - destruct (decide (wdir ≠ ""%string)) as [Hw|Hw].
    + destruct (decide (wdir = ""%string)); [done|].
      destruct envs as [e|]; simpl; rewrite IH; f_equal; unfold set_resolved; simpl;
        destruct (decide (Case s ≠ ""%string)), (decide (Name s = ""%string)),
          (canShow s), (decide (Weight s = 0%Z)); simpl;
          repeat case_decide; try done; try lia.
    + destruct (decide (wdir = ""%string)) as [Hw'|]; [|by destruct Hw].
      destruct envs as [e|]; simpl; rewrite IH; f_equal; unfold set_resolved; simpl;
        destruct (decide (Case s ≠ ""%string)), (decide (Name s = ""%string)),
          (canShow s), (decide (Weight s = 0%Z)); simpl;
          repeat case_decide; try done; try lia.
Qed.

Section ResolverAgain.
Context {W : Type} `{!Runtime W}.
Variable workdir : string.

(** X7. When no decoded weight is negative, every scenario [signOff]
    scores has weight at least 1 after [getConf], so the sum of the weights
    is at least their number; without overflow the denominator is then 0
    only when there is no displayable, non-skipped scenario. *)
Theorem getConf_denominator (w : W) (t : suitConfig) :
  (∀ s, s ∈ Cases t → (0 ≤ Weight s)%Z) →
  let c := getConf workdir w t in
  GoInt.in_range (weights (scoredCases c)) →
  (Z.of_nat (length (scoredCases c)) ≤ weights (scoredCases c))%Z ∧
  (t_max (tally c) = 0%Z ↔ scoredCases c = []).
Proof.
  intros Hpos c Hrange.
  assert (Hone : Forall (λ r, (1 ≤ Weight r)%Z) (scoredCases c)).
  { apply Forall_forall. intros r Hr.
    apply list_elem_of_filter in Hr as [Hscored Hin].
    apply list_elem_of_lookup in Hin as [i Hi].
    destruct (getConf_lookup_inv workdir w t i r Hi) as (s & env & wd & Hs & ->).
    assert (Hw : (0 ≤ Weight s)%Z) by (apply Hpos; by eapply list_elem_of_lookup_2).
    unfold scored in Hscored. simpl in Hscored |- *.
    apply Is_true_true, andb_true_iff in Hscored as [_ Hshow].
    unfold resolved_weight. rewrite Hshow.
    destruct (decide (Weight s = 0%Z)); lia. }
  pose proof (weights_at_least _ Hone) as Hle. split; [exact Hle|].
  destruct (tally_closed c) as (_ & Hmax & _).
  rewrite Hmax, (wrap_in_range _ Hrange). split.
  - intros H0. apply length_zero_iff_nil. lia.
  - by intros ->.
Qed.

(** X8. Resolving a resolved suite changes nothing: [getConf] is
    idempotent. *)
Theorem getConf_idempotent (w : W) (t : suitConfig) :
  getConf workdir w (getConf workdir w t) = getConf workdir w t.
Proof.
  unfold getConf. simpl. by rewrite getConf_loop_idempotent.
Qed.
End ResolverAgain.

Lemma getConf_denominator_witness :
  let c := getConf "" 0%nat hooked_suite in
  t_max (tally c) ≠ 0%Z.
Proof.
  intros c.
  destruct (getConf_denominator "" 0%nat hooked_suite) as [_ Hzero].
  - intros s Hs.
    repeat (apply elem_of_cons in Hs as [->|Hs]; [simpl; lia|]).
    by apply elem_of_nil in Hs.
  - vm_compute. split; discriminate.
  - intros H0. apply Hzero in H0. discriminate H0.
Defined.

(** ** Invariants of a run *)

Section InvariantProofs.
Context {W : Type} `{!Runtime W}.
Variable verbosity : Z.
Variable workdir : string.

Lemma holds_bind P {A B} (m : M W A) (f : A → M W B) :
  holds P m → (∀ a, holds P (f a)) → holds P (m ≫= f).
Proof.
  intros Hm Hf st HP. specialize (Hm st HP). unfold mbind, M_bind.
  destruct (m st) as [[a|i] st1]; simpl in *; [by apply Hf|done].
Qed.

Lemma holds_reads P {A} (m : M W A) : reads m → holds P m.
Proof. intros Hm st HP. by rewrite Hm. Qed.

Lemma holds_forM_ P {A} (l : list A) (f : A → M W ()) :
  (∀ a, holds P (f a)) → holds P (forM_ l f).
Proof.
  intros Hf. induction l as [|a l IH]; [by intros st|].
  cbn [forM_]. by apply holds_bind.
Qed.

Lemma holds_RunBash P id : stable P → holds P (RunBash workdir id).
Proof.
  intros [Hout _] st HP. destruct (Cases (conf st) !! id) as [s|] eqn:Hid.
  - destruct (decide (Script s = ""%string)) as [Hs|Hs].
    + by rewrite (RunBash_scriptless workdir st id s Hid Hs).
    + rewrite (RunBash_scripted workdir st id s Hid Hs). simpl.
      by apply Hout.
  - unfold RunBash, mbind, M_bind, caseAt. by rewrite Hid.
Qed.

Lemma holds_runHook P name : stable P → holds P (runHook workdir name).
Proof.
  intros HP. unfold runHook.
  apply holds_bind; [apply holds_reads, reads_getConfig|]. intros c.
  apply holds_bind; [apply holds_reads, reads_slot|]. intros id.
  apply holds_bind; [by apply holds_RunBash|]. intros _.
  apply holds_reads, reads_ret.
Qed.

Lemma holds_stamp P item d :
  stable P →
  holds P (current ← caseAt item; setCase item (set_Duration d current) : M W ()).
Proof.
  intros [_ Hdur] st HP. unfold mbind, M_bind, caseAt.
  destruct (Cases (conf st) !! item) as [cur|] eqn:Hcur; [|done].
  simpl. by apply Hdur.
Qed.

Lemma holds_exec_tail P item after start :
  stable P → holds P (exec_tail workdir item after start).
Proof.
  intros HP. unfold exec_tail.
  apply holds_bind; [apply holds_forM_; intros; by apply holds_runHook|]. intros _.
  apply holds_bind; [apply holds_reads, reads_timeNow|]. intros t2.
  by apply holds_stamp.
Qed.

Lemma holds_exec P item : stable P → holds P (exec workdir item).
Proof.
  intros HP. unfold exec.
  apply holds_bind; [apply holds_reads, reads_emit|]. intros _.
  apply holds_bind; [apply holds_reads, reads_caseAt|]. intros tc.
  destruct (decide _); [|apply holds_reads, reads_ret].
  apply holds_bind; [apply holds_reads, reads_timeNow|]. intros t1.
  apply holds_bind; [apply holds_forM_; intros; by apply holds_runHook|]. intros _.
  apply holds_bind; [by apply holds_RunBash|]. intros _.
  by apply (holds_exec_tail P item (After tc) t1).
Qed.

Lemma holds_main_loop P ids i :
  stable P → holds P (main_loop verbosity workdir ids i).
Proof.
  intros HP. revert i. induction ids as [|id ids IH]; intros i; [by intros st|].
  cbn [main_loop].
  apply holds_bind; [by apply holds_exec|]. intros _.
  apply holds_bind; [apply holds_reads, reads_caseAt|]. intros shown.
  destruct (CanShow shown); [|apply IH].
  apply holds_bind; [apply holds_reads, reads_printTestStatus|]. intros _.
  apply IH.
Qed.

Lemma holds_after_getConf P :
  stable P → holds P (after_getConf verbosity workdir).
Proof.
  intros HP. unfold after_getConf.
  apply holds_bind; [apply holds_reads, reads_printHeader|]. intros _.
  apply holds_bind; [apply holds_reads, reads_getConfig|]. intros c.
  apply holds_bind.
  { destruct (_ >? _)%Z; [|apply holds_reads, reads_ret].
    apply holds_bind; [apply holds_reads, reads_emit|]. intros _.
    apply holds_bind; [by apply holds_main_loop|]. intros _.
    apply holds_reads, reads_emit. }
  intros _. apply holds_bind; [apply holds_reads, reads_signOff|]. intros _.
  apply holds_reads, reads_printSummaryM.
Qed.

Lemma stable_outcome_ok : stable (Forall outcome_ok).
Proof.
  split.
  - intros cs id s out err Hid Hall. apply Forall_insert; [done|].
    unfold outcome_ok. destruct err; simpl; naive_solver.
  - intros cs id s d Hid Hall. apply Forall_insert; [done|].
    exact (proj1 (Forall_lookup _ _) Hall id s Hid).
Qed.

(** X9. Status and error agree throughout: if every decoded scenario is
    unrun without an error, or successful without an error, or failed with
    one, then so is every scenario at the end of the run, however the run
    ends. In particular a status is never anything but empty, [success] or
    [failed]. *)
Theorem run_outcomes_agree (t : suitConfig) (w : W) :
  Forall outcome_ok (Cases t) →
  Forall outcome_ok (Cases (conf (run verbosity workdir t w).2)).
Proof.
  intros Hdecoded. rewrite run_resolved.
  apply (holds_after_getConf _ stable_outcome_ok). simpl.
  apply Forall_lookup. intros i r Hr.
  destruct (getConf_lookup_inv workdir w t i r Hr) as (s & env & wd & Hs & ->).
  exact (proj1 (Forall_lookup _ _) Hdecoded i s Hs).
Qed.

Lemma stable_finished j : stable (finished j).
Proof.
  split.
  - intros cs id s out err Hid (x & Hx & Hst).
    destruct (decide (id = j)) as [->|Hne].
    + eexists. split.
      * apply list_lookup_insert_eq. by eapply lookup_lt_Some.
      * simpl. destruct err; [by right|by left].
    + exists x. by rewrite list_lookup_insert_ne.
  - intros cs id s d Hid (x & Hx & Hst).
    destruct (decide (id = j)) as [->|Hne].
    + eexists. split.
      * apply list_lookup_insert_eq. by eapply lookup_lt_Some.
      * simpl. congruence.
    + exists x. by rewrite list_lookup_insert_ne.
Qed.

Lemma exec_unfold_scripted (st : State W) (item : nat) (tc : ScenarioItem) :
  Cases (conf st) !! item = Some tc → Script tc ≠ ""%string →
  ∃ t1 st1,
    Cases (conf st1) = Cases (conf st) ∧
    trace st1 = trace st ++ [EvExec item] ∧
    exec workdir item st
    = (forM_ (Before tc) (runHook workdir);; exec_rest workdir item (After tc) t1) st1.
Proof.
  intros Hitem Hs. unfold exec.
  set (st0 := record st [EvExec item]).
  rewrite (bind_ok (emit (EvExec item)) _ st st0 () eq_refl).
  assert (Hc0 : caseAt item st0 = (Ok tc, st0))
    by (unfold caseAt; simpl; by rewrite Hitem).
  rewrite (bind_ok _ _ _ _ _ Hc0).
  destruct (decide (Script tc ≠ ""%string)) as [_|]; [|done].
  destruct (time_Now (world st0)) as [t1 w1] eqn:Ht1.
  set (st1 := {| conf := conf st0; world := w1; trace := trace st0 |}).
  assert (H1 : timeNow st0 = (Ok t1, st1)) by (unfold timeNow; by rewrite Ht1).
  rewrite (bind_ok _ _ _ _ _ H1).
  by exists t1, st1.
Qed.

Lemma exec_finishes (st st' : State W) (item : nat) (tc : ScenarioItem) :
  exec workdir item st = (Ok (), st') →
  Cases (conf st) !! item = Some tc → Script tc ≠ ""%string →
  finished item (Cases (conf st')).
Proof.
  intros Hrun Hitem Hs.
  destruct (exec_unfold_scripted st item tc Hitem Hs) as (t1 & st1 & Hc1 & _ & Heq).
  rewrite Heq in Hrun. clear Heq.
  pose proof (frame_forM_ (Cases (conf st1)) (Before tc) (runHook workdir)
                (λ a, frame_runHook workdir _ a) st1 (keeps_refl _)) as Hk2.
  destruct (forM_ (Before tc) (runHook workdir) st1) as [[[]|p] st2] eqn:Hb.
  2:{ by rewrite (bind_panic _ _ _ _ _ Hb) in Hrun. }
  rewrite (bind_ok _ _ _ _ _ Hb) in Hrun. simpl in Hk2. rewrite Hc1 in Hk2.
  destruct (keeps_lookup_fwd _ _ item tc Hk2 Hitem) as (tc2 & Hitem2 & Hst).
  apply static_fields in Hst as (_ & Hscript & _).
  assert (Hs2 : Script tc2 ≠ ""%string) by congruence.
  unfold exec_rest in Hrun.
  rewrite (bind_ok _ _ _ _ _ (RunBash_scripted workdir st2 item tc2 Hitem2 Hs2)) in Hrun.
  pose proof (holds_exec_tail (finished item) item (After tc) t1
                (stable_finished item)
                (ran workdir st2 item tc2
                   (CombinedOutput (script_Cmd workdir tc2 (world st2)) (world st2))))
    as Hrest.
  unfold exec_tail in Hrest. rewrite Hrun in Hrest. apply Hrest.
  simpl. eexists. split.
  - apply list_lookup_insert_eq. by eapply lookup_lt_Some.
  - simpl. destruct (CombinedOutput _ _).1.2; [by right|by left].
Qed.

Lemma main_loop_finishes (ids : list nat) (i : Z) (st st' : State W) (id : nat) :
  main_loop verbosity workdir ids i st = (Ok (), st') →
  id ∈ ids → has_script (Cases (conf st)) id = true →
  finished id (Cases (conf st')).
Proof.
  revert i st. induction ids as [|a ids IH]; intros i st Hrun Hin Hscript.
  { by apply elem_of_nil in Hin. }
  cbn [main_loop] in Hrun.
  pose proof (frame_exec workdir (Cases (conf st)) a st (keeps_refl _)) as Hk1.
  destruct (exec workdir a st) as [[[]|p] st1] eqn:He.
  2:{ by rewrite (bind_panic _ _ _ _ _ He) in Hrun. }
  rewrite (bind_ok _ _ _ _ _ He) in Hrun. simpl in Hk1.
  unfold mbind at 1, M_bind at 1, caseAt at 1 in Hrun.
  destruct (Cases (conf st1) !! a) as [shown|] eqn:Hshown; [|done].
  assert (Hnext : ∃ j st2,
    Cases (conf st2) = Cases (conf st1) ∧
    main_loop verbosity workdir ids j st2 = (Ok (), st')).
  { destruct (CanShow shown); [|by eexists _, _].
    pose proof (reads_printTestStatus verbosity a [i] st1) as Hreads.
    destruct (printTestStatus verbosity a [i] st1) as [[[]|p] st2] eqn:Hp.
    2:{ by rewrite (bind_panic _ _ _ _ _ Hp) in Hrun. }
    rewrite (bind_ok _ _ _ _ _ Hp) in Hrun. by eexists _, _. }
  destruct Hnext as (j & st2 & Hc2 & Hrest).
  apply elem_of_cons in Hin as [->|Hin].
  - unfold has_script in Hscript.
    destruct (Cases (conf st) !! a) as [tc|] eqn:Htc; [|done].
    apply bool_decide_eq_true in Hscript.
    pose proof (exec_finishes st st1 a tc He Htc Hscript) as Hfin.
    rewrite <- Hc2 in Hfin.
    pose proof (holds_main_loop (finished a) ids j (stable_finished a) st2 Hfin) as Hend.
    by rewrite Hrest in Hend.
  - apply (IH j st2 Hrest Hin).
    rewrite Hc2, <- (has_script_keeps _ _ id Hk1). exact Hscript.
Qed.

(** X10. When the run completes and the displayable count is positive,
    every selected scenario that has a script ends with the status
    [success] or [failed]. *)
Theorem run_finishes_scripted (t : suitConfig) (w : W) (id : nat) :
  let c := getConf workdir w t in
  let r := run verbosity workdir t w in
  r.1 = Ok () → (getScenarioCount c > 0)%Z →
  id ∈ getScenarioIds c → has_script (Cases c) id = true →
  finished id (Cases (conf r.2)).
Proof.
  intros c r Hok Hpos Hin Hscript. unfold r in *. rewrite run_resolved in *.
  set (st0 := resolved workdir t w) in *.
  destruct (after_getConf verbosity workdir st0) as [res st'] eqn:Hrun.
  simpl in Hok |- *. subst res. unfold after_getConf in Hrun.
  pose proof (reads_printHeader st0) as Hreads.
  destruct (printHeader st0) as [[[]|p] st1] eqn:Hheader.
  2:{ by rewrite (bind_panic _ _ _ _ _ Hheader) in Hrun. }
  rewrite (bind_ok _ _ _ _ _ Hheader) in Hrun. simpl in Hreads.
  rewrite (bind_ok getConfig _ st1 st1 (conf st1) eq_refl) in Hrun.
  change (Cases (conf st0)) with (Cases c) in Hreads.
  rewrite (getScenarioCount_cases _ c Hreads), (getScenarioIds_cases _ c Hreads) in Hrun.
  destruct (getScenarioCount c >? 0)%Z eqn:Hgt; [|lia].
  set (body := (logLine LRule;;
                main_loop verbosity workdir (getScenarioIds c) 1;;
                logLine LRule : M W ())) in Hrun.
  destruct (body st1) as [[[]|p] st4] eqn:Hbody.
  2:{ by rewrite (bind_panic _ _ _ _ _ Hbody) in Hrun. }
  rewrite (bind_ok _ _ _ _ _ Hbody) in Hrun.
  assert (Htail : Cases (conf st') = Cases (conf st4)).
  { assert (Hr : reads (signOff;; printSummaryM : M W ())).
    { apply reads_bind; [apply reads_signOff|]. intros _. apply reads_printSummaryM. }
    specialize (Hr st4). by rewrite Hrun in Hr. }
  rewrite Htail. unfold body in Hbody.
  rewrite (bind_ok (logLine LRule) _ st1 (record st1 [EvLog LRule]) () eq_refl) in Hbody.
  destruct (main_loop verbosity workdir (getScenarioIds c) 1 (record st1 [EvLog LRule]))
    as [[[]|p] st3] eqn:Hloop.
  2:{ by rewrite (bind_panic _ _ _ _ _ Hloop) in Hbody. }
  rewrite (bind_ok _ _ _ _ _ Hloop) in Hbody.
  injection Hbody as <-. simpl.
  apply (main_loop_finishes _ _ _ _ id Hloop Hin). simpl. by rewrite Hreads.
Qed.
End InvariantProofs.

Lemma run_outcomes_agree_witness :
  Forall outcome_ok (Cases (conf (run 0 "" cancelling_suite 0%nat).2)).
Proof.
  apply run_outcomes_agree.
  repeat (apply Forall_cons; split; [left; split; reflexivity|]).
  apply Forall_nil_2.
Defined.

Lemma run_finishes_scripted_witness :
  finished 2 (Cases (conf (run 0 "" hooked_suite 0%nat).2)).
Proof.
  apply (run_finishes_scripted 0 "" hooked_suite 0%nat 2).
  - reflexivity.
  - reflexivity.
  - repeat constructor.
  - reflexivity.
Defined.

(** ** What can make a run panic *)

Section PanicCause.
Context {W : Type} `{!Runtime W}.
Variable verbosity : Z.
Variable workdir : string.
















Lemma printHook_unresolved (st : State W) (name : string) :
  getIdByName (conf st) name = (-1)%Z →
  printHook name st = (Panic (-1), record st [EvLog (LRun name)]).
Proof.
  intros Hm. unfold printHook, mbind, M_bind, logLine, emit, getConfig, slot.
  simpl. rewrite Hm.
  destruct (decide _) as [Hr|]; [lia|done].
Qed.

Lemma printHook_resolved (st : State W) (name : string) :
  getIdByName (conf st) name ≠ (-1)%Z →
  ∃ new, printHook name st = (Ok (), record st (EvLog (LRun name) :: new)) ∧
         execs new = [] ∧ status_numbers new = [].
Proof.
  intros Hne.
  destruct (getIdByName_spec (conf st) name)
    as [[Hm _]|(k & s & Hr & Hk & _)]; [done|].
  pose proof (lookup_lt_Some _ _ _ Hk) as Hlt.
  exists [EvLog (LScript (TrimSpace (Script s))); EvLog (LStdout (Stdout s));
          EvLog (LExit (Result s)); EvLog LDashes].
  split; [|done].
  unfold printHook, mbind, M_bind, getConfig, slot, caseAt, logLine, emit, record.
  simpl. rewrite Hr.
  destruct (decide _) as [_|Hout]; [|lia].
  rewrite !Nat2Z.id. cbn [conf]. rewrite Hk. cbn [conf world trace].
  by rewrite <- !app_assoc.
Qed.










End PanicCause.


(** ** The header and the summary *)

Lemma count_fold (cs : list ScenarioItem) (ids : list nat) (acc : Tally) :
  fold_left
    (λ result i,
       match cs !! i with
       | Some s => if CanShow s then GoInt.add result 1 else result
       | None => result
       end) ids (t_all acc)
  = t_all (fold_left (tally_step cs) ids acc).
Proof.
  revert acc. induction ids as [|i ids IH]; intros acc; [done|].
  simpl. rewrite <- IH. f_equal. unfold tally_step.
  destruct (cs !! i) as [s|]; [|done]. by destruct (CanShow s).
Qed.

Lemma getScenarioCount_tally (c : suitConfig) :
  getScenarioCount c = t_all (tally c).
Proof.
  exact (count_fold (Cases c) (getScenarioIds c)
           {| t_sum := 0; t_max := 0; t_failed := 0; t_all := 0 |}).
Qed.

Lemma scoredCases_keeps (c c' : suitConfig) :
  keeps (Cases c) (Cases c') →
  length (scoredCases c) = length (scoredCases c').
Proof.
  intros [Hs _]. unfold scoredCases.
  revert Hs. generalize (Cases c'). induction (Cases c) as [|s cs IH];
    intros [|s' cs'] Heq; try done.
  rewrite !fmap_cons in Heq.
  pose proof (f_equal (hd (static s)) Heq) as Hhead.
  pose proof (f_equal tail Heq) as Htail. cbn [hd tail] in Hhead, Htail.
  assert (Hsc : scored s = scored s').
  { apply static_fields in Hhead as (_ & _ & _ & _ & Hskip & Hshow & _).
    unfold scored. by rewrite Hskip, Hshow. }
  destruct (scored s') eqn:Hs'.
  - rewrite !filter_cons_True by (by rewrite ?Hsc, ?Hs'). simpl. f_equal. by apply IH.
  - rewrite !filter_cons_False by (rewrite ?Hsc, ?Hs'; simpl; tauto). by apply IH.
Qed.

Section HeaderSummary.
Context {W : Type} `{!Runtime W}.
Variable verbosity : Z.
Variable workdir : string.

Lemma printSummaryM_conf (st : State W) : conf (printSummaryM st).2 = conf st.
Proof.
  unfold printSummaryM, mbind, M_bind, getConfig. simpl.
  by destruct (printSummary (conf st)).
Qed.

(** A run that completes ends with [signOff] applied to a suite that
    [keeps] the resolved one. *)
Lemma run_ok_summary (t : suitConfig) (w : W) :
  (run verbosity workdir t w).1 = Ok () →
  ∃ c4 now dur,
    keeps (Cases (getConf workdir w t)) (Cases c4) ∧
    conf (run verbosity workdir t w).2 = signOff_at now dur c4.
Proof.
  rewrite run_resolved. set (st0 := resolved workdir t w).
  intros Hok.
  destruct (after_getConf verbosity workdir st0) as [res st'] eqn:Hrun.
  simpl in Hok |- *. subst res. unfold after_getConf in Hrun.
  pose proof (reads_printHeader st0) as Hreads.
  destruct (printHeader st0) as [[[]|p] st1] eqn:Hheader.
  2:{ by rewrite (bind_panic _ _ _ _ _ Hheader) in Hrun. }
  rewrite (bind_ok _ _ _ _ _ Hheader) in Hrun. simpl in Hreads.
  rewrite (bind_ok getConfig _ st1 st1 (conf st1) eq_refl) in Hrun.
  set (body := (if (getScenarioCount (conf st1) >? 0)%Z then
                  logLine LRule;;
                  main_loop verbosity workdir (getScenarioIds (conf st1)) 1;;
                  logLine LRule
                else mret ()) : M W ()) in Hrun.
  assert (Hframe : frame (Cases (conf st0)) body).
  { unfold body. destruct (_ >? _)%Z; [|apply reads_frame, reads_ret].
    apply frame_bind; [apply reads_frame, reads_emit|]. intros _.
    apply frame_bind; [apply frame_main_loop|]. intros _.
    apply reads_frame, reads_emit. }
  specialize (Hframe st1 ltac:(rewrite Hreads; apply keeps_refl)).
  destruct (body st1) as [[[]|p] st4] eqn:Hbody.
  2:{ by rewrite (bind_panic _ _ _ _ _ Hbody) in Hrun. }
  rewrite (bind_ok _ _ _ _ _ Hbody) in Hrun. simpl in Hframe.
  destruct (signOff_conf st4) as (Hsok & _ & now & dur & Hc).
  destruct (signOff st4) as [[[]|p] st5] eqn:Hsign; [|done].
  rewrite (bind_ok _ _ _ _ _ Hsign) in Hrun. simpl in Hc.
  exists (conf st4), now, dur. split; [exact Hframe|].
  rewrite <- Hc, <- (printSummaryM_conf st5). by rewrite Hrun.
Qed.

(** X12. When the run completes, the total of the summary is the count
    the header announced: both are the number of displayable, non-skipped
    scenarios of the resolved suite (as a Go [int]). *)
Theorem header_matches_summary (t : suitConfig) (w : W) :
  let c := getConf workdir w t in
  let r := run verbosity workdir t w in
  r.1 = Ok () →
  all (conf r.2) = getScenarioCount c ∧
  getScenarioCount c = GoInt.wrap (Z.of_nat (length (scoredCases c))).
Proof.
  intros c r Hok.
  destruct (run_ok_summary t w Hok) as (c4 & now & dur & Hk & Hconf).
  assert (Hcount : getScenarioCount c = GoInt.wrap (Z.of_nat (length (scoredCases c)))).
  { rewrite getScenarioCount_tally. apply (tally_closed c). }
  split; [|exact Hcount].
  unfold r. rewrite Hconf, Hcount. simpl.
  destruct (tally_closed c4) as (_ & _ & _ & ->).
  by rewrite (scoredCases_keeps c c4 Hk).
Qed.
End HeaderSummary.

Lemma header_matches_summary_witness :
  all (conf (run 0 "" hooked_suite 0%nat).2) = 1%Z.
Proof.
  destruct (header_matches_summary 0 "" hooked_suite 0%nat) as [Hall _];
    [reflexivity|].
  rewrite Hall. reflexivity.
Defined.

(** ** Reporting *)

Section Reporting.
Context {W : Type} `{!Runtime W}.
Variable workdir : string.

Lemma status_numbers_app t1 t2 :
  status_numbers (t1 ++ t2) = status_numbers t1 ++ status_numbers t2.
Proof. apply omap_app. Qed.

Lemma printHooks_resolved (names : list string) (st : State W) :
  (∀ n, n ∈ names → getIdByName (conf st) n ≠ (-1)%Z) →
  ∃ new, forM_ names printHook st = (Ok (), record st new) ∧
         execs new = [] ∧ status_numbers new = [].
Proof.
  revert st. induction names as [|n names IH]; intros st Hall.
  - exists []. split; [|done]. unfold record. rewrite app_nil_r. by destruct st.
  - destruct (printHook_resolved st n) as (n1 & Hrun & He1 & Hs1); [apply Hall; by left|].
    destruct (IH (record st (EvLog (LRun n) :: n1))) as (n2 & Hrest & He2 & Hs2).
    { intros x Hx. apply Hall. by right. }
    exists ((EvLog (LRun n) :: n1) ++ n2). split.
    + cbn [forM_]. rewrite (bind_ok _ _ _ _ _ Hrun), Hrest.
      unfold record. simpl. by rewrite <- app_assoc.
    + split.
      * rewrite execs_app.
        change (execs (EvLog (LRun n) :: n1)) with (execs n1).
        by rewrite He1, He2.
      * rewrite status_numbers_app.
        change (status_numbers (EvLog (LRun n) :: n1)) with (status_numbers n1).
        by rewrite Hs1, Hs2.
Qed.

Lemma printHooks_unresolved (names : list string) (st : State W) (name : string) :
  name ∈ names → getIdByName (conf st) name = (-1)%Z →
  ∃ st', forM_ names printHook st = (Panic (-1), st').
Proof.
  revert st. induction names as [|n names IH]; intros st Hin Hm.
  - by apply elem_of_nil in Hin.
  - cbn [forM_].
    destruct (decide (getIdByName (conf st) n = (-1)%Z)) as [Hn|Hn].
    + eexists. by rewrite (bind_panic _ _ _ _ _ (printHook_unresolved st n Hn)).
    + destruct (printHook_resolved st n Hn) as (new & Hrun & _).
      rewrite (bind_ok _ _ _ _ _ Hrun). apply IH; [|done].
      apply elem_of_cons in Hin as [->|Hin]; [done|exact Hin].
Qed.

(** X13. With verbosity above 2, [printTestStatus] on a displayable,
    selected scenario that lists a name no scenario has panics with index
    -1, also when the scenario has no script, for which [exec] passed
    its hooks over. *)
Theorem printTestStatus_dangling (verbosity : Z) (st : State W) (id : nat)
    (asId : list Z) (tc : ScenarioItem) (name : string) :
  (verbosity > 2)%Z →
  Cases (conf st) !! id = Some tc → id ∈ getScenarioIds (conf st) →
  CanShow tc = true →
  name ∈ Before tc ++ After tc → getIdByName (conf st) name = (-1)%Z →
  (∃ st', printTestStatus verbosity id asId st = (Panic (-1), st')) ∧
  (Script tc = ""%string → exec workdir id st = (Ok (), record st [EvExec id])).
Proof.
  intros Hv Hid Hsel Hshow Hname Hm. split; [|by apply exec_scriptless].
  unfold printTestStatus.
  assert (Hc : caseAt id st = (Ok tc, st)) by (unfold caseAt; by rewrite Hid).
  rewrite (bind_ok _ _ _ _ _ Hc).
  rewrite (bind_ok getConfig _ st st (conf st) eq_refl).
  destruct (decide _) as [_|]; [|done]. rewrite Hshow.
  set (line := if IsSuccessful tc then _ else _).
  assert (Hline : ∃ st1, line st = (Ok (), st1) ∧ conf st1 = conf st).
  { unfold line. destruct (IsSuccessful tc); by eexists. }
  destruct Hline as (st1 & Hline & Hc1).
  rewrite (bind_ok _ _ _ _ _ Hline).
  replace ((verbosity >? 2)%Z) with true by (symmetry; apply Z.gtb_lt; lia).
  rewrite orb_true_r.
  destruct (decide (Exists (λ n, getIdByName (conf st) n = (-1)%Z) (Before tc)))
    as [(n & Hn & Hnm)%Exists_exists|Hnone].
  { destruct (printHooks_unresolved (Before tc) st1 n Hn) as (st' & Hp);
      [by rewrite Hc1|].
    exists st'. by rewrite (bind_panic _ _ _ _ _ Hp). }
  assert (Hbefore : ∀ n, n ∈ Before tc → getIdByName (conf st1) n ≠ (-1)%Z).
  { intros n Hn Hnm. apply Hnone, Exists_exists. exists n. by rewrite <- Hc1. }
  destruct (printHooks_resolved (Before tc) st1 Hbefore) as (new & Hb & _).
  rewrite (bind_ok _ _ _ _ _ Hb).
  assert (Hafter : name ∈ After tc).
  { apply elem_of_app in Hname as [Hin|Hin]; [|done].
    exfalso. apply (Hbefore name Hin). by rewrite Hc1. }
  set (st2 := record st1 new).
  rewrite (bind_ok (logLine LTildes) _ st2 (record st2 [EvLog LTildes]) () eq_refl).
  set (st3 := record st2 [EvLog LTildes]).
  rewrite (bind_ok (logLine _) _ st3 (record st3 [EvLog (LStdout (TrimSpace (Stdout tc)))])
             () eq_refl).
  set (st4 := record st3 _).
  rewrite (bind_ok (logLine _) _ st4 (record st4 [EvLog (LExit (Result tc))]) () eq_refl).
  set (st5 := record st4 _).
  rewrite (bind_ok (logLine LTildes) _ st5 (record st5 [EvLog LTildes]) () eq_refl).
  apply (printHooks_unresolved (After tc) _ name Hafter).
  simpl. by rewrite Hc1.
Qed.

(** X14. With verbosity at most 1, which is what [-v] gives whatever
    other flags come with it, [printTestStatus] never panics and logs
    the status line of a displayable, selected scenario and nothing else:
    no description and no output of any script. *)
Theorem printTestStatus_brief (verbosity : Z) (v2 v3 : bool) (st : State W)
    (id : nat) (asId : list Z) (tc : ScenarioItem) :
  (verbosity ≤ 1)%Z → Cases (conf st) !! id = Some tc →
  let i := match asId with a :: _ => a | [] => Z.of_nat id end in
  let line := if IsSuccessful tc
              then LPassed i (Case tc) (Duration tc) (SecretPhrase tc)
              else LNotPassed i (Case tc) (Duration tc) in
  verbosity_of true v2 v3 = 1%Z ∧
  ∃ st', printTestStatus verbosity id asId st = (Ok (), st') ∧
         conf st' = conf st ∧ world st' = world st ∧
         trace st' = trace st ++
           (if decide (id ∈ getScenarioIds (conf st))
            then if CanShow tc then [EvLog line] else []
            else []).
Proof.
  intros Hv Hid i line. split; [done|].
  unfold printTestStatus.
  assert (Hc : caseAt id st = (Ok tc, st)) by (unfold caseAt; by rewrite Hid).
  rewrite (bind_ok _ _ _ _ _ Hc).
  rewrite (bind_ok getConfig _ st st (conf st) eq_refl).
  destruct (decide _) as [_|].
  2:{ exists st. by rewrite app_nil_r. }
  destruct (CanShow tc).
  2:{ exists st. by rewrite app_nil_r. }
  replace ((verbosity >? 1)%Z) with false by (symmetry; rewrite Z.gtb_ltb; apply Z.ltb_ge; lia).
  replace ((verbosity >? 2)%Z) with false by (symmetry; rewrite Z.gtb_ltb; apply Z.ltb_ge; lia).
  simpl. exists (record st [EvLog line]). split; [|done].
  unfold line, i. by destruct (IsSuccessful tc).
Qed.

Lemma hooks_partial (pre post : list string) (bad : string) (st : State W) :
  (∀ n, n ∈ pre → getIdByName (conf st) n ≠ (-1)%Z) →
  getIdByName (conf st) bad = (-1)%Z →
  ∃ st', forM_ (pre ++ bad :: post) (runHook workdir) st = (Panic (-1), st') ∧
         did st st' (resolve (conf st) pre)
           (filter (λ j, has_script (Cases (conf st)) j) (resolve (conf st) pre)).
Proof.
  revert st. induction pre as [|n pre IH]; intros st Hall Hbad.
  - exists st. split; [|apply did_refl]. simpl.
    by rewrite (bind_panic _ _ _ _ _ (runHook_unresolved workdir st bad Hbad)).
  - destruct (runHook_resolved workdir st n) as (st1 & Hrun & Hdid1);
      [apply Hall; by left|].
    pose proof (proj1 Hdid1) as Hk.
    destruct (IH st1) as (st2 & Hrest & Hdid2).
    { intros x Hx. rewrite <- (getIdByName_keeps _ _ x Hk). apply Hall. by right. }
    { by rewrite <- (getIdByName_keeps _ _ bad Hk). }
    exists st2. split.
    + rewrite <- app_comm_cons. cbn [forM_]. by rewrite (bind_ok _ _ _ _ _ Hrun).
    + rewrite <- (resolve_keeps _ _ pre Hk) in Hdid2.
      rewrite <- (filter_has_script_keeps _ _ _ Hk) in Hdid2.
      pose proof (did_trans _ _ _ _ _ _ _ Hdid1 Hdid2) as Hdid.
      unfold resolve at 1 2. rewrite fmap_cons, filter_cons.
      destruct (has_script (Cases (conf st)) _) eqn:Hs;
        (destruct (decide _) as [Hd|Hd]; [|try (by destruct Hd)]); try done.
Qed.

(** X15. When the first name of a before list that names no scenario
    comes after names that do, [exec] has already called the executor on
    those (and launched their scripts) when it panics; the scenario's own
    script and its after names are not reached. *)
Theorem exec_partial (st : State W) (item : nat) (tc : ScenarioItem)
    (pre post : list string) (bad : string) :
  Cases (conf st) !! item = Some tc → Script tc ≠ ""%string →
  Before tc = pre ++ bad :: post →
  (∀ n, n ∈ pre → n ∈ Name <$> Cases (conf st)) →
  bad ∉ Name <$> Cases (conf st) →
  ∃ st' new,
    exec workdir item st = (Panic (-1), st') ∧
    trace st' = trace st ++ EvExec item :: new ∧
    calls new = resolve (conf st) pre ∧
    spawns new = filter (λ j, has_script (Cases (conf st)) j) (resolve (conf st) pre) ∧
    keeps (Cases (conf st)) (Cases (conf st')).
Proof.
  intros Hitem Hs Hbefore Hpre Hbad.
  destruct (exec_unfold_scripted workdir st item tc Hitem Hs)
    as (t1 & st1 & Hc1 & Ht1 & Heq).
  assert (Hconf : ∀ n, getIdByName (conf st1) n = getIdByName (conf st) n).
  { intros n. apply getIdByName_keeps. rewrite Hc1. apply keeps_refl. }
  destruct (hooks_partial pre post bad st1) as (st' & Hp & Hk & new & Ht & Hcl & Hsp & _).
  { intros n Hn. rewrite Hconf. intros Hm%getIdByName_unresolved. by apply Hm, Hpre. }
  { rewrite Hconf. by apply getIdByName_unresolved. }
  exists st', new. rewrite Heq, Hbefore, (bind_panic _ _ _ _ _ Hp).
  rewrite Hc1 in Hk, Hsp.
  assert (Hres : resolve (conf st1) pre = resolve (conf st) pre).
  { unfold resolve. apply list_fmap_ext. intros _ n _. by rewrite Hconf. }
  rewrite Hres in Hcl, Hsp.
  split_and!; try done. by rewrite Ht, Ht1, <- app_assoc.
Qed.
End Reporting.

Lemma printTestStatus_dangling_witness :
  (run 3 "" dangling_scriptless_suite 0%nat).1 = Panic (-1) ∧
  (run 2 "" dangling_scriptless_suite 0%nat).1 = Ok () ∧
  ∃ st', printTestStatus 3 0 [1%Z] (resolved "" dangling_scriptless_suite 0%nat)
         = (Panic (-1), st').
Proof.
  split; [vm_compute; reflexivity|]. split; [vm_compute; reflexivity|].
  apply (printTestStatus_dangling "" 3 (resolved "" dangling_scriptless_suite 0%nat)
           0 [1%Z]
           (set_resolved (Toy.scenario "" "notes" "" 1 ["prepare"%string] [])
              None "/home/ci" true true 1)
           "prepare"%string).
  - lia.
  - reflexivity.
  - repeat constructor.
  - reflexivity.
  - simpl. repeat constructor.
  - reflexivity.
Defined.

Lemma printTestStatus_brief_witness :
  ∃ st', printTestStatus (verbosity_of true false true) 2 [1%Z] hooked_state
         = (Ok (), st') ∧
         trace st' = [EvLog (LNotPassed 1 "main" "" )].
Proof.
  destruct (printTestStatus_brief (verbosity_of true false true) false true
              hooked_state 2 [1%Z]
              (set_resolved (Toy.scenario "" "main" "exit 0" 1 ["setup"] ["cleanup"])
                 None "/home/ci" true true 1))
    as (_ & st' & Hrun & _ & _ & Ht).
  - vm_compute. discriminate.
  - reflexivity.
  - exists st'. split; [exact Hrun|]. rewrite Ht. reflexivity.
Defined.

Lemma exec_partial_witness :
  ∃ st' new,
    exec "" 1 (resolved "" half_dangling_suite 0%nat) = (Panic (-1), st') ∧
    trace st' = EvExec 1 :: new ∧ calls new = [0] ∧ spawns new = [0].
Proof.
  destruct (exec_partial "" (resolved "" half_dangling_suite 0%nat) 1
              (set_resolved
                 (Toy.scenario "" "deploy" "exit 0" 1 ["setup"; "prepare"]%string [])
                 None "/home/ci" true true 1)
              ["setup"%string] [] "prepare"%string)
    as (st' & new & Hrun & Ht & Hcl & Hsp & _).
  - reflexivity.
  - simpl. discriminate.
  - reflexivity.
  - intros n Hn. apply elem_of_cons in Hn as [->|Hn]; [simpl; repeat constructor|].
    by apply elem_of_nil in Hn.
  - simpl. intros Hin.
    repeat (apply elem_of_cons in Hin as [Hin|Hin]; [discriminate|]).
    by apply elem_of_nil in Hin.
  - exists st', new. rewrite Hsp, Hcl. split_and!; done.
Defined.

Lemma signOff_in_range_witness :
  let st := (run 0 "" hooked_suite 0%nat).2 in
  successfull (conf (signOff st).2) = 1%Z ∧ failed (conf (signOff st).2) = 0%Z.
Proof.
  intros st.
  destruct (signOff_in_range st) as (_ & _ & Hfailed & Hok).
  - vm_compute. split; discriminate.
  - vm_compute. split; discriminate.
  - vm_compute. split; discriminate.
  - rewrite Hfailed, Hok. split; reflexivity.
Defined.

(** ** What a run does not touch *)

Lemma getScenarioIds_from_static (i : nat) (cs cs' : list ScenarioItem) :
  static <$> cs = static <$> cs' →
  getScenarioIds_from i cs = getScenarioIds_from i cs'.
Proof.
  revert i cs'. induction cs as [|s cs IH]; intros i [|s' cs'] Heq; try done.
  rewrite !fmap_cons in Heq.
  pose proof (f_equal (hd (static s)) Heq) as Hhead.
  pose proof (f_equal tail Heq) as Htail. cbn [hd tail] in Hhead, Htail.
  apply static_fields in Hhead as (_ & _ & _ & _ & Hskip & Hshow & Hrun & _).
  simpl. rewrite Hskip, Hshow, Hrun, (IH (S i) cs' Htail). done.
Qed.

Section Untouched.
Context {W : Type} `{!Runtime W}.
Variable verbosity : Z.
Variable workdir : string.

Lemma avoids_bind c0 j {A B} (m : M W A) (f : A → M W B) :
  avoids c0 j m → (∀ a, avoids c0 j (f a)) → avoids c0 j (m ≫= f).
Proof.
  intros Hm Hf st Hk. destruct (Hm st Hk) as [Hk1 Hj1]. unfold mbind, M_bind.
  destruct (m st) as [[a|i] st1]; simpl in *; [|done].
  destruct (Hf a st1 Hk1) as [Hk2 Hj2]. split; [done|congruence].
Qed.

Lemma avoids_reads c0 j {A} (m : M W A) : reads m → avoids c0 j m.
Proof. intros Hr st Hk. by rewrite Hr. Qed.

Lemma avoids_RunBash c0 j id : id ≠ j → avoids c0 j (RunBash workdir id).
Proof.
  intros Hne st Hk. split; [by apply frame_RunBash|].
  destruct (Cases (conf st) !! id) as [s|] eqn:Hid.
  - destruct (decide (Script s = ""%string)) as [Hs|Hs].
    + by rewrite (RunBash_scriptless workdir st id s Hid Hs).
    + rewrite (RunBash_scripted workdir st id s Hid Hs). simpl.
      by apply list_lookup_insert_ne.
  - unfold RunBash, mbind, M_bind, caseAt. by rewrite Hid.
Qed.

Lemma keeps_getIdByName c0 (st : State W) (name : string) :
  keeps c0 (Cases (conf st)) →
  getIdByName (conf st) name = getIdByName_from 0 c0 name.
Proof.
  intros [Hs _]. unfold getIdByName. symmetry.
  by apply getIdByName_from_names, static_names.
Qed.

Lemma runHook_state (st : State W) (name : string) (k : nat) :
  getIdByName (conf st) name = Z.of_nat k → k < length (Cases (conf st)) →
  (runHook workdir name st).2 = (RunBash workdir k st).2.
Proof.
  intros Hr Hlt. unfold runHook, mbind at 1 2, M_bind at 1 2, getConfig, slot.
  rewrite Hr. destruct (decide _) as [_|]; [|lia]. rewrite Nat2Z.id.
  unfold mbind, M_bind. by destruct (RunBash workdir k st) as [[r|p] st'].
Qed.

Lemma avoids_runHook c0 j name :
  getIdByName_from 0 c0 name ≠ Z.of_nat j → avoids c0 j (runHook workdir name).
Proof.
  intros Hmiss st Hk. split; [by apply frame_runHook|].
  rewrite <- (keeps_getIdByName c0 st name Hk) in Hmiss.
  destruct (getIdByName_spec (conf st) name)
    as [[Hm _]|(k & s & Hr & Hks & _)].
  - by rewrite (runHook_unresolved workdir st name Hm).
  - rewrite (runHook_state st name k Hr (lookup_lt_Some _ _ _ Hks)).
    apply (avoids_RunBash c0 j k); [|done]. intros ->. by apply Hmiss.
Qed.

Lemma avoids_forM_ c0 j (names : list string) (f : string → M W ()) :
  (∀ name, name ∈ names → avoids c0 j (f name)) → avoids c0 j (forM_ names f).
Proof.
  induction names as [|name names IH]; intros Hf.
  - apply avoids_reads, reads_ret.
  - cbn [forM_]. apply avoids_bind; [apply Hf; by left|].
    intros _. apply IH. intros n Hn. apply Hf. by right.
Qed.

Lemma avoids_exec c0 j item :
  item ≠ j → hooks_miss c0 item j → avoids c0 j (exec workdir item).
Proof.
  intros Hne Hmiss st Hk. split; [by apply frame_exec|].
  destruct (Cases (conf st) !! item) as [tc|] eqn:Hitem.
  2:{ unfold exec, mbind, M_bind, emit, caseAt. simpl. by rewrite Hitem. }
  destruct (decide (Script tc = ""%string)) as [Hs|Hs].
  { by rewrite (exec_scriptless workdir st item tc Hitem Hs). }
  destruct (exec_unfold_scripted workdir st item tc Hitem Hs)
    as (t1 & st1 & Hc1 & _ & Heq).
  rewrite Heq, <- Hc1.
  destruct (keeps_lookup _ _ _ _ Hk Hitem) as (s0 & Hs0 & Hst).
  apply static_fields in Hst as (_ & Hscript & Hb & Ha & _).
  assert (Hs0' : Script s0 ≠ ""%string) by congruence.
  assert (Hhooks : ∀ names, (∀ n, n ∈ names → n ∈ Before tc ++ After tc) →
                   avoids c0 j (forM_ names (runHook workdir))).
  { intros names Hsub. apply avoids_forM_. intros n Hn.
    apply avoids_runHook. apply (Hmiss s0 n Hs0 Hs0').
    rewrite Hb, Ha. by apply Hsub. }
  assert (Hrest : avoids c0 j
            (forM_ (Before tc) (runHook workdir);; exec_rest workdir item (After tc) t1)).
  { apply avoids_bind; [apply Hhooks; intros n Hn; apply elem_of_app; by left|].
    intros _. unfold exec_rest.
    apply avoids_bind; [by apply avoids_RunBash|]. intros _.
    apply avoids_bind; [apply Hhooks; intros n Hn; apply elem_of_app; by right|].
    intros _. apply avoids_bind; [apply avoids_reads, reads_timeNow|].
    intros t2 st5 Hk5. split.
    - apply frame_stamp; [|done]. intros x Hx. congruence.
    - unfold mbind, M_bind, caseAt.
      destruct (Cases (conf st5) !! item) eqn:Hcur; [|done].
      simpl. by apply list_lookup_insert_ne. }
  apply (Hrest st1). by rewrite Hc1.
Qed.

Lemma avoids_main_loop c0 j ids i :
  (∀ id, id ∈ ids → id ≠ j ∧ hooks_miss c0 id j) →
  avoids c0 j (main_loop verbosity workdir ids i).
Proof.
  revert i. induction ids as [|id ids IH]; intros i Hids.
  - apply avoids_reads, reads_ret.
  - destruct (Hids id) as [Hne Hmiss]; [by left|].
    assert (Hrest : ∀ k, avoids c0 j (main_loop verbosity workdir ids k))
      by (intros k; apply IH; intros x Hx; apply Hids; by right).
    cbn [main_loop].
    apply avoids_bind; [by apply avoids_exec|]. intros _.
    apply avoids_bind; [apply avoids_reads, reads_caseAt|]. intros shown.
    destruct (CanShow shown); [|apply Hrest].
    apply avoids_bind; [apply avoids_reads, reads_printTestStatus|]. intros _.
    apply Hrest.
Qed.

(** X17. A scenario that is not selected and to which no before or after
    name of a selected scenario with a script resolves is never touched:
    however the run ends, it is still the record [getConf] produced. *)
Theorem run_untouched (t : suitConfig) (w : W) (j : nat) :
  let c := getConf workdir w t in
  j ∉ getScenarioIds c →
  (∀ id, id ∈ getScenarioIds c → hooks_miss (Cases c) id j) →
  Cases (conf (run verbosity workdir t w).2) !! j = Cases c !! j.
Proof.
  intros c Hj Hmiss. rewrite run_resolved.
  set (st0 := resolved workdir t w).
  unfold after_getConf.
  pose proof (reads_printHeader st0) as Hreads.
  change (Cases (conf st0)) with (Cases c) in Hreads.
  destruct (printHeader st0) as [[[]|p] st1] eqn:Hheader; simpl in Hreads.
  2:{ rewrite (bind_panic _ _ _ _ _ Hheader). simpl. by rewrite Hreads. }
  rewrite (bind_ok _ _ _ _ _ Hheader).
  rewrite (bind_ok getConfig _ st1 st1 (conf st1) eq_refl).
  rewrite (getScenarioIds_cases (conf st1) c Hreads).
  assert (Hk1 : keeps (Cases c) (Cases (conf st1))) by (rewrite Hreads; apply keeps_refl).
  transitivity (Cases (conf st1) !! j); [|by rewrite Hreads].
  refine (proj2 (avoids_bind (Cases c) j _ _ _ _ st1 Hk1)).
  - destruct (_ >? _)%Z; [|apply avoids_reads, reads_ret].
    apply avoids_bind; [apply avoids_reads, reads_emit|]. intros _.
    apply avoids_bind; [|intros _; apply avoids_reads, reads_emit].
    apply avoids_main_loop. intros id Hid. split; [by intros ->|by apply Hmiss].
  - intros _. apply avoids_bind; [apply avoids_reads, reads_signOff|]. intros _.
    apply avoids_reads, reads_printSummaryM.
Qed.
End Untouched.

Lemma run_untouched_witness :
  Cases (conf (run 3 "" untouched_suite 0%nat).2) !! 1%nat
  = Cases (getConf "" 0%nat untouched_suite) !! 1%nat.
Proof.
  apply (run_untouched 3 "" untouched_suite 0%nat 1).
  - vm_compute. intros Hin.
    repeat (apply elem_of_cons in Hin as [Hin|Hin]; [discriminate|]).
    by apply elem_of_nil in Hin.
  - intros id Hid s name Hs Hscript Hname.
    vm_compute in Hid.
    repeat (apply elem_of_cons in Hid as [->|Hid];
            [vm_compute in Hs; injection Hs as <-; simpl in Hname;
             repeat (apply elem_of_cons in Hname as [->|Hname];
                     [vm_compute; discriminate|]);
             by apply elem_of_nil in Hname|]).
    by apply elem_of_nil in Hid.
Defined.

(** ** The numbers of the status lines *)

Lemma shown_ids_length (pre cs : list ScenarioItem) :
  length (filter (λ id, shown_at (pre ++ cs) id) (getScenarioIds_from (length pre) cs))
  = length (filter (λ s, scored s) cs).
Proof.
  revert pre. induction cs as [|s rest IH]; intros pre; [done|].
  assert (Hhere : shown_at (pre ++ s :: rest) (length pre) = canShow s).
  { unfold shown_at. rewrite lookup_app_r by lia. by rewrite Nat.sub_diag. }
  assert (Hrest :
    length (filter (λ id, shown_at (pre ++ s :: rest) id)
              (getScenarioIds_from (S (length pre)) rest))
    = length (filter (λ s, scored s) rest)).
  { rewrite <- (IH (pre ++ [s])), <- app_assoc, length_app. simpl.
    by rewrite Nat.add_1_r. }
  simpl. destruct (Skip s) eqn:Hskip.
  { rewrite filter_cons_False; [exact Hrest|].
    unfold scored. rewrite Hskip. simpl. tauto. }
  destruct (canShow s) eqn:Hshow; simpl.
  - rewrite filter_cons_True by (by rewrite Hhere).
    rewrite (filter_cons_True (λ s, scored s))
      by (unfold scored; rewrite Hskip, Hshow; exact I).
    simpl. by rewrite Hrest.
  - rewrite (filter_cons_False (λ s, scored s))
      by (unfold scored; rewrite Hskip, Hshow; simpl; tauto).
    destruct (canRun s); [|exact Hrest].
    rewrite filter_cons_False; [exact Hrest|]. rewrite Hhere. simpl. tauto.
Qed.

Section Numbers.
Context {W : Type} `{!Runtime W}.
Variable verbosity : Z.
Variable workdir : string.

Lemma numbered_bind {A B} (m : M W A) (f : A → M W B) l1 l2 :
  numbered m l1 → (∀ a, numbered (f a) l2) → numbered (m ≫= f) (l1 ++ l2).
Proof.
  intros Hm Hf st. destruct (Hm st) as (n1 & Ht1 & Hs1). unfold mbind, M_bind.
  destruct (m st) as [[a|i] st1]; simpl in *; [|by exists n1].
  destruct (Hf a st1) as (n2 & Ht2 & Hs2).
  exists (n1 ++ n2). rewrite Ht2, Ht1, app_assoc. split; [done|].
  intros Hok. by rewrite status_numbers_app, (Hs1 I), (Hs2 Hok).
Qed.

Lemma numbered_then {A B} (m : M W A) (f : A → M W B) l :
  numbered m [] → (∀ a, numbered (f a) l) → numbered (m ≫= f) l.
Proof. intros Hm Hf. change l with ([] ++ l). by apply numbered_bind. Qed.

Lemma numbered_ret {A} (a : A) : numbered (mret a : M W A) [].
Proof. intros st. exists []. by rewrite app_nil_r. Qed.

Lemma numbered_emit e : status_numbers [e] = [] → numbered (emit e : M W ()) [].
Proof. intros He st. by exists [e]. Qed.

Lemma numbered_timeNow : numbered (timeNow : M W Z) [].
Proof.
  intros st. exists []. unfold timeNow. destruct (time_Now (world st)).
  simpl. by rewrite app_nil_r.
Qed.

Lemma numbered_caseAt id : numbered (caseAt id : M W ScenarioItem) [].
Proof.
  intros st. exists []. unfold caseAt.
  destruct (Cases (conf st) !! id); by rewrite app_nil_r.
Qed.

Lemma numbered_slot i : numbered (slot i : M W nat) [].
Proof.
  intros st. exists []. unfold slot. destruct (decide _); by rewrite app_nil_r.
Qed.

Lemma numbered_getConfig : numbered (getConfig : M W suitConfig) [].
Proof. intros st. exists []. by rewrite app_nil_r. Qed.

Lemma numbered_modifyConfig f : numbered (modifyConfig f : M W ()) [].
Proof. intros st. exists []. simpl. by rewrite app_nil_r. Qed.

Lemma numbered_readWorld {A} (f : W → A) : numbered (readWorld f) [].
Proof. intros st. exists []. simpl. by rewrite app_nil_r. Qed.

Lemma numbered_combinedOutput id cmd : numbered (combinedOutput id cmd : M W _) [].
Proof.
  intros st. exists [EvSpawn id cmd]. unfold combinedOutput.
  by destruct (CombinedOutput cmd (world st)).
Qed.

Lemma numbered_forM_ {A} (l : list A) (f : A → M W ()) :
  (∀ a, numbered (f a) []) → numbered (forM_ l f) [].
Proof.
  intros Hf. induction l as [|a l IH]; [apply numbered_ret|].
  cbn [forM_]. by apply numbered_then.
Qed.

Lemma numbered_RunBash id : numbered (RunBash workdir id) [].
Proof.
  unfold RunBash.
  apply numbered_then; [apply numbered_caseAt|]. intros s.
  apply numbered_then; [by apply numbered_emit|]. intros _.
  destruct (decide _); [|apply numbered_ret].
  apply numbered_then; [apply numbered_readWorld|]. intros script.
  apply numbered_then; [apply numbered_combinedOutput|]. intros [stdout err].
  apply numbered_then; [apply numbered_modifyConfig|]. intros _.
  apply numbered_ret.
Qed.

Lemma numbered_runHook name : numbered (runHook workdir name) [].
Proof.
  unfold runHook.
  apply numbered_then; [apply numbered_getConfig|]. intros c.
  apply numbered_then; [apply numbered_slot|]. intros id.
  apply numbered_then; [apply numbered_RunBash|]. intros _.
  apply numbered_ret.
Qed.

Lemma numbered_exec item : numbered (exec workdir item) [].
Proof.
  unfold exec.
  apply numbered_then; [by apply numbered_emit|]. intros _.
  apply numbered_then; [apply numbered_caseAt|]. intros tc.
  destruct (decide _); [|apply numbered_ret].
  apply numbered_then; [apply numbered_timeNow|]. intros t1.
  apply numbered_then; [apply numbered_forM_, numbered_runHook|]. intros _.
  apply numbered_then; [apply numbered_RunBash|]. intros _.
  apply numbered_then; [apply numbered_forM_, numbered_runHook|]. intros _.
  apply numbered_then; [apply numbered_timeNow|]. intros t2.
  apply numbered_then; [apply numbered_caseAt|]. intros cur.
  apply numbered_modifyConfig.
Qed.

Lemma numbered_printHook name : numbered (printHook name : M W ()) [].
Proof.
  unfold printHook, logLine.
  apply numbered_then; [by apply numbered_emit|]. intros _.
  apply numbered_then; [apply numbered_getConfig|]. intros c.
  apply numbered_then; [apply numbered_slot|]. intros id.
  apply numbered_then; [apply numbered_caseAt|]. intros helper.
  repeat (apply numbered_then; [by apply numbered_emit|]; intros _).
  by apply numbered_emit.
Qed.

(** One status line, with the number handed over. *)
Lemma printTestStatus_numbered (st : State W) (id : nat) (i : Z) (tc : ScenarioItem) :
  Cases (conf st) !! id = Some tc → id ∈ getScenarioIds (conf st) →
  CanShow tc = true →
  ∃ new, trace (printTestStatus verbosity id [i] st).2 = trace st ++ new ∧
         (succeeded (printTestStatus verbosity id [i] st).1 →
          status_numbers new = [i]).
Proof.
  intros Hid Hsel Hshow. unfold printTestStatus.
  assert (Hc : caseAt id st = (Ok tc, st)) by (unfold caseAt; by rewrite Hid).
  rewrite (bind_ok _ _ _ _ _ Hc).
  rewrite (bind_ok getConfig _ st st (conf st) eq_refl).
  destruct (decide _) as [_|]; [|done]. rewrite Hshow.
  refine (numbered_bind _ _ [i] [] _ _ st).
  - intros st1. unfold logLine.
    destruct (IsSuccessful tc); eexists; (split; [reflexivity|done]).
  - intros _. destruct (_ || _); [|apply numbered_ret]. unfold logLine.
    apply numbered_then; [apply numbered_forM_, numbered_printHook|]. intros _.
    repeat (apply numbered_then; [by apply numbered_emit|]; intros _).
    apply numbered_forM_, numbered_printHook.
Qed.

Lemma shown_at_keeps c0 (cs : list ScenarioItem) id tc :
  keeps c0 cs → cs !! id = Some tc → shown_at c0 id = CanShow tc.
Proof.
  intros Hk Htc. destruct (keeps_lookup _ _ _ _ Hk Htc) as (s0 & Hs0 & Hst).
  apply static_fields in Hst as (_ & _ & _ & _ & _ & Hshow & _).
  unfold shown_at, CanShow. by rewrite Hs0.
Qed.

Lemma main_loop_numbered c0 (ids : list nat) (i : Z) (st : State W) :
  keeps c0 (Cases (conf st)) →
  (∀ id, id ∈ ids → id ∈ getScenarioIds_from 0 c0) →
  ∃ new, trace (main_loop verbosity workdir ids i st).2 = trace st ++ new ∧
         (succeeded (main_loop verbosity workdir ids i st).1 →
          status_numbers new
          = count_from i (length (filter (λ id, shown_at c0 id) ids))).
Proof.
  revert i st. induction ids as [|a ids IH]; intros i st Hk Hids.
  { exists []. by rewrite app_nil_r. }
  assert (Hids' : ∀ id, id ∈ ids → id ∈ getScenarioIds_from 0 c0)
    by (intros x Hx; apply Hids; by right).
  cbn [main_loop].
  destruct (numbered_exec a st) as (n1 & Ht1 & Hs1).
  pose proof (frame_exec workdir c0 a st Hk) as Hk1.
  destruct (exec workdir a st) as [[[]|p] st1] eqn:He; simpl in Ht1, Hs1, Hk1.
  2:{ rewrite (bind_panic _ _ _ _ _ He). by exists n1. }
  rewrite (bind_ok _ _ _ _ _ He).
  unfold mbind at 1, M_bind at 1, caseAt at 1.
  unfold mbind at 2, M_bind at 2, caseAt at 1.
  destruct (Cases (conf st1) !! a) as [shown|] eqn:Hshown.
  2:{ by exists n1. }
  assert (Hsh : shown_at c0 a = CanShow shown)
    by apply (shown_at_keeps c0 _ a shown Hk1 Hshown).
  destruct (CanShow shown) eqn:Hcan.
  - rewrite filter_cons_True by (by rewrite Hsh).
    assert (Hsel : a ∈ getScenarioIds (conf st1)).
    { unfold getScenarioIds.
      rewrite <- (getScenarioIds_from_static 0 c0 _ (proj1 Hk1)). apply Hids. by left. }
    destruct (printTestStatus_numbered st1 a i shown Hshown Hsel Hcan)
      as (n2 & Ht2 & Hs2).
    pose proof (reads_printTestStatus verbosity a [i] st1) as Hreads.
    destruct (printTestStatus verbosity a [i] st1) as [[[]|p] st2] eqn:Hp;
      simpl in Ht2, Hs2, Hreads.
    2:{ rewrite (bind_panic _ _ _ _ _ Hp). exists (n1 ++ n2).
        split; [simpl; by rewrite Ht2, Ht1, app_assoc|done]. }
    rewrite (bind_ok _ _ _ _ _ Hp).
    destruct (IH (GoInt.add i 1) st2) as (n3 & Ht3 & Hs3);
      [by rewrite Hreads|exact Hids'|].
    exists (n1 ++ n2 ++ n3). split.
    + by rewrite Ht3, Ht2, Ht1, !app_assoc.
    + intros Hok. rewrite !status_numbers_app, (Hs1 I), (Hs2 I), (Hs3 Hok). done.
  - rewrite filter_cons_False by (rewrite Hsh; simpl; tauto).
    destruct (IH i st1 Hk1 Hids') as (n3 & Ht3 & Hs3).
    exists (n1 ++ n3). split.
    + by rewrite Ht3, Ht1, app_assoc.
    + intros Hok. by rewrite status_numbers_app, (Hs1 I), (Hs3 Hok).
Qed.

Lemma numbered_printHeader : numbered (printHeader : M W ()) [].
Proof.
  unfold printHeader, logLine.
  apply numbered_then; [apply numbered_getConfig|]. intros c.
  apply numbered_then; [apply numbered_timeNow|]. intros now.
  apply numbered_then; [apply numbered_modifyConfig|]. intros _.
  repeat (destruct (_ : bool); [by apply numbered_emit|]). apply numbered_ret.
Qed.

Lemma numbered_tail : numbered (signOff;; printSummaryM : M W ()) [].
Proof.
  apply numbered_then.
  - unfold signOff. apply numbered_then; [apply numbered_timeNow|]. intros now.
    apply numbered_modifyConfig.
  - intros _. unfold printSummaryM, printSummary, logLine.
    apply numbered_then; [apply numbered_getConfig|]. intros c.
    destruct (all c >? 0)%Z; [|apply numbered_ret].
    destruct (failed c >? 0)%Z; by apply numbered_emit.
Qed.

(** X18. When the run completes, the status lines it logged are numbered
    1, 2, 3, ... in the order of the scenarios, one line for every
    displayable, non-skipped scenario (none at all when the displayable
    count is not positive). *)
Theorem run_status_numbers (t : suitConfig) (w : W) :
  let c := getConf workdir w t in
  let r := run verbosity workdir t w in
  r.1 = Ok () →
  status_numbers (trace r.2)
  = if (getScenarioCount c >? 0)%Z
    then count_from 1 (length (scoredCases c)) else [].
Proof.
  intros c r Hok. unfold r in *. rewrite run_resolved in *.
  set (st0 := resolved workdir t w) in *.
  unfold after_getConf in *.
  pose proof (reads_printHeader st0) as Hreads.
  change (Cases (conf st0)) with (Cases c) in Hreads.
  destruct (numbered_printHeader st0) as (n1 & Ht1 & Hs1).
  destruct (printHeader st0) as [[[]|p] st1] eqn:Hheader; simpl in Hreads, Ht1, Hs1.
  2:{ by rewrite (bind_panic _ _ _ _ _ Hheader) in Hok. }
  rewrite (bind_ok _ _ _ _ _ Hheader) in Hok |- *.
  rewrite (bind_ok getConfig _ st1 st1 (conf st1) eq_refl) in Hok |- *.
  rewrite (getScenarioCount_cases _ c Hreads), (getScenarioIds_cases _ c Hreads)
    in Hok |- *.
  assert (Hk1 : keeps (Cases c) (Cases (conf st1))) by (rewrite Hreads; apply keeps_refl).
  destruct (getScenarioCount c >? 0)%Z.
  - set (st2 := record st1 [EvLog LRule]).
    unfold mbind at 1, M_bind at 1 in Hok. unfold mbind at 1, M_bind at 1.
    rewrite (bind_ok (logLine LRule) _ st1 st2 () eq_refl) in Hok |- *.
    destruct (main_loop_numbered (Cases c) (getScenarioIds c) 1 st2 Hk1)
      as (n3 & Ht3 & Hs3); [done|].
    destruct (main_loop verbosity workdir (getScenarioIds c) 1 st2)
      as [[[]|p] st3] eqn:Hloop; simpl in Ht3, Hs3.
    2:{ by rewrite (bind_panic _ _ _ _ _ Hloop) in Hok. }
    rewrite (bind_ok _ _ _ _ _ Hloop) in Hok |- *.
    unfold logLine at 1, emit at 1 in Hok. unfold logLine at 1, emit at 1.
    cbn [fst snd] in Hok |- *.
    destruct (numbered_tail (record st3 [EvLog LRule])) as (n5 & Ht5 & Hs5).
    unfold record in Ht5, Hs5. cbn [conf world trace] in Ht5, Hs5.
    rewrite Ht5, Ht3. unfold st2, record. cbn [trace]. rewrite Ht1.
    rewrite !status_numbers_app, Hs1, (Hs3 I), (Hs5 ltac:(by rewrite Hok)) by done.
    change (status_numbers [EvLog LRule]) with (@nil Z).
    rewrite !app_nil_r. cbn [app]. f_equal.
    exact (shown_ids_length [] (Cases c)).
  - unfold mbind at 1, M_bind at 1 in Hok. unfold mbind at 1, M_bind at 1.
    cbn [mret M_ret fst snd] in Hok |- *.
    destruct (numbered_tail st1) as (n5 & Ht5 & Hs5).
    rewrite Ht5, Ht1.
    rewrite !status_numbers_app, Hs1, (Hs5 ltac:(by rewrite Hok)) by done.
    done.
Qed.
End Numbers.

Lemma run_status_numbers_witness :
  status_numbers (trace (run 3 "" cancelling_suite 0%nat).2) = [1; 2]%Z.
Proof.
  rewrite (run_status_numbers 3 "" cancelling_suite 0%nat); reflexivity.
Defined.
